(** * Root-span lifecycle of the Workers OpenTelemetry SDK

    Shallow embedding of [packages/opentelemetry-sdk-workers/src/sdk.ts]:
    the span factory [WorkersSDK.getSpan] / [WorkersSDK.start] and the
    per-invocation controller [WorkerInstance] with its three methods
    [fetch], [sendResponse] and [captureException].

    The platform objects the file talks to (strings, [URL],
    [URLSearchParams], [Headers], [Date.now], the OpenTelemetry [Span]) are
    modelled in the modules that come first; the code of [sdk.ts] itself
    follows them, and the properties come last. *)

From Stdlib Require Import ZArith Ascii String DecimalString SpecFloat Lia.
From stdpp Require Import gmap strings list sorting.

Local Open Scope Z_scope.

(** ** JavaScript values used by the file *)

Module Js.

(** Errors that the modelled code can raise: the [TypeError] of the
    language and of the platform constructors, and a plain [Error]
    carrying the message given to [new Error(...)]. *)
Inductive JsError :=
| TypeError (msg : string)
| Error (msg : string).

(** A call either returns normally or throws. *)
Inductive Completion (A : Type) :=
| Normal (a : A)
| Throw (e : JsError).
Arguments Normal {A} a.
Arguments Throw {A} e.

Definition bind {A B} (c : Completion A) (k : A -> Completion B) : Completion B :=
  match c with
  | Normal a => k a
  | Throw e => Throw e
  end.

Definition throws {A} (c : Completion A) : bool :=
  match c with Normal _ => false | Throw _ => true end.

(** [String.prototype.toLowerCase] on the ASCII range (header names are
    ASCII tokens, so this is the only range the code applies it to). *)
Definition toLowerCase_char (c : ascii) : ascii :=
  let n := nat_of_ascii c in
  if ((65 <=? n) && (n <=? 90))%nat then ascii_of_nat (n + 32) else c.

Fixpoint toLowerCase (s : string) : string :=
  match s with
  | EmptyString => EmptyString
  | String c s' => String (toLowerCase_char c) (toLowerCase s')
  end.

(** [s.substring(0, n)] for [0 <= n]. *)
Definition substring_0 (n : nat) (s : string) : string := String.substring 0 n s.

(** Number-to-string conversion of a template literal, for the integral
    numbers the runtime hands over as [scheduledTime] (epoch milliseconds,
    far below the [1e21] from which JavaScript prints an exponent). *)
Definition Number_toString (n : Z) : string := NilEmpty.string_of_int (Z.to_int n).

(** [Array.prototype.some]: left to right, stops at the first hit. *)
Fixpoint some {A} (f : A -> bool) (l : list A) : bool :=
  match l with
  | [] => false
  | x :: l' => if f x then true else some f l'
  end.

(** [Array.prototype.join]. *)
Fixpoint join (sep : string) (l : list string) : string :=
  match l with
  | [] => ""
  | [x] => x
  | x :: l' => x +:+ sep +:+ join sep l'
  end.

(** A [RegExp] is used only through [test]. The patterns are taken
    without the [g] and [y] flags (as the default [/.*/] is), so [test]
    keeps no state between calls and is a function of the subject.
    Patterns that carry one of these flags are the matter of [Stateful]
    below. *)
Record RegExp := { test : string -> bool }.

(** [/.*/] matches every string. *)
Definition regexp_any : RegExp := {| test := fun _ => true |}.

End Js.
Export Js.

#[global] Instance Completion_ret : MRet Completion := @Normal.
#[global] Instance Completion_bind : MBind Completion := fun A B k c => Js.bind c k.

(** ** Numbers that hold instants: IEEE 754 binary64 *)

Module Number.

Definition prec : Z := 53.
Definition emax : Z := 1024.

Definition Number := spec_float.

(** The Number whose value is the integer [z] (exact below [2^53]). *)
Definition of_Z (z : Z) : Number := binary_normalize prec emax z 0 false.

(** The literal [0.01]: the binary64 nearest to one hundredth. *)
Definition lit_0_01 : Number := Eval vm_compute in SFdiv prec emax (of_Z 1) (of_Z 100).

(** [x + y], [x === y] and [x < y] on numbers. *)
Definition num_add (x y : Number) : Number := SFadd prec emax x y.
Definition strict_eq (x y : Number) : bool := SFeqb x y.
Definition num_lt (x y : Number) : bool := SFltb x y.

(** [Date.now()] when the clock reads [t] milliseconds since the epoch. *)
Definition Date_now (t : Z) : Number := of_Z t.

(** What rounding the magnitude [m * 2^e], with [m] of at least 53 bits,
    to a binary64 magnitude [m' * 2^e'] amounts to: [m] loses its [n] low
    bits [r], and the quotient [q] is kept or goes up by one (which may
    carry into the next binade); it goes up when more than half a unit is
    lost and is kept when less than half a unit is lost. *)
Definition round_result (m : positive) (e : Z) (m' : positive) (e' : Z) : Prop :=
  let n := Zpos (digits2_pos m) - 53 in
  let q := Zpos m / 2 ^ n in
  let r := Zpos m mod 2 ^ n in
  2 ^ 52 <= Zpos m' < 2 ^ 53 ∧
  ((e' = e + n ∧ q <= Zpos m' <= q + 1
    ∧ (2 ^ n < 2 * r -> Zpos m' = q + 1) ∧ (2 * r < 2 ^ n -> Zpos m' = q))
   ∨ (e' = e + n + 1 ∧ q + 1 = 2 ^ 53 ∧ 2 ^ n <= 2 * r)).

End Number.
Export Number.

(** ** WHATWG URL and URLSearchParams *)

Module Url.

Record URL := {
  href : string;
  protocol : string;
  host : string;
  hostname : string;
  port : string;
  pathname : string;
  searchParams : list (string * string)
}.

Definition URLSearchParams := list (string * string).

(** [new URLSearchParams()] and [append]. *)
Definition URLSearchParams_new : URLSearchParams := [].
Definition URLSearchParams_append (p : URLSearchParams) (key value : string) : URLSearchParams :=
  p ++ [(key, value)].

Definition hex_digit (n : nat) : ascii :=
  nth n ["0"; "1"; "2"; "3"; "4"; "5"; "6"; "7"; "8"; "9";
         "A"; "B"; "C"; "D"; "E"; "F"]%char "0"%char.

(** Bytes the application/x-www-form-urlencoded serializer leaves as they
    are: ASCII alphanumerics and [*], [-], [.], [_]. *)
Definition urlencoded_safe (c : ascii) : bool :=
  let n := nat_of_ascii c in
  (((48 <=? n) && (n <=? 57)) || ((65 <=? n) && (n <=? 90)) || ((97 <=? n) && (n <=? 122))
   || (n =? 42) || (n =? 45) || (n =? 46) || (n =? 95))%nat.

Definition urlencoded_byte (c : ascii) : string :=
  let n := nat_of_ascii c in
  if (n =? 32)%nat then "+"
  else if urlencoded_safe c then String c ""
  else String "%" (String (hex_digit (n / 16)) (String (hex_digit (n mod 16)) "")).

Fixpoint urlencoded_string (s : string) : string :=
  match s with
  | EmptyString => EmptyString
  | String c s' => urlencoded_byte c +:+ urlencoded_string s'
  end.

(** [URLSearchParams.prototype.toString]: [name=value] pairs joined by [&]. *)
Definition URLSearchParams_toString (p : URLSearchParams) : string :=
  join "&" (map (fun kv => urlencoded_string kv.1 +:+ "=" +:+ urlencoded_string kv.2) p).

End Url.
Export Url.

(** ** Fetch API: Headers, Request, Response *)

Module Http.

(** A [Headers] object holds a header list; names are kept as they were
    supplied and compared case-insensitively. *)
Record Headers := { header_list : list (string * string) }.

Definition string_le (a b : string) : Prop := String.leb a b = true.
#[global] Instance string_le_dec : RelDecision string_le :=
  fun a b => decide (String.leb a b = true).

Definition header_values (h : Headers) (name : string) : list string :=
  map snd (filter (fun nv => toLowerCase nv.1 = name) (header_list h)).

(** The sorted, duplicate-free, lower-cased names of the header list. *)
Definition header_names (h : Headers) : list string :=
  merge_sort string_le (remove_dups (map (fun nv => toLowerCase nv.1) (header_list h))).

(** [headers.get(name)]: the values of the header joined by [", "], or
    [null] when there is none. *)
Definition Headers_get (h : Headers) (name : string) : option string :=
  match header_values h (toLowerCase name) with
  | [] => None
  | vs => Some (join ", " vs)
  end.

(** [headers.keys()]: iteration over the "sort and combine" of the header
    list. Every name comes out once, lower-cased, in sorted order; only
    [set-cookie] comes out once per value. *)
Definition Headers_keys (h : Headers) : list string :=
  flat_map (fun name =>
              if String.eqb name "set-cookie"
              then map (fun _ => name) (header_values h name)
              else [name])
           (header_names h).

Record Request := {
  method : string;
  url : string;
  headers : Headers
}.

Record Response := {
  status : Z;
  response_headers : Headers
}.

End Http.
Export Http.

(** ** OpenTelemetry API: spans as the record of what was asked of them *)

Module Otel.

Inductive SpanKind := INTERNAL | SERVER | CLIENT | PRODUCER | CONSUMER.

(** Values the code passes as attribute values: strings, numbers, the
    [null] that [headers.get] gives for a missing header, and the
    one-element arrays built around [headers.get(headerKey)]. *)
Inductive AttributeValue :=
| AttrString (s : string)
| AttrNumber (n : Z)
| AttrNull
| AttrArray (l : list (option string)).

Definition attr_of_nullable (o : option string) : AttributeValue :=
  match o with Some s => AttrString s | None => AttrNull end.

Record SpanOptions := {
  opt_kind : SpanKind;
  opt_root : bool;
  opt_startTime : Number
}.

Inductive SpanCall :=
| SetAttribute (key : string) (value : AttributeValue)
| RecordException (ex : JsError)
| End (endTime : Number).

(** A span is what [tracer.startSpan] was given followed by the calls
    made on it, oldest first. *)
Record Span := {
  span_name : string;
  span_options : SpanOptions;
  span_calls : list SpanCall
}.

Definition startSpan (name : string) (options : SpanOptions) : Span :=
  {| span_name := name; span_options := options; span_calls := [] |}.

Definition call (c : SpanCall) (sp : Span) : Span :=
  {| span_name := span_name sp; span_options := span_options sp;
     span_calls := span_calls sp ++ [c] |}.

Definition setAttribute (sp : Span) (key : string) (value : AttributeValue) : Span :=
  call (SetAttribute key value) sp.

(** [span.setAttributes({...})]: one [setAttribute] per property, in
    property order. *)
Definition setAttributes (sp : Span) (kvs : list (string * AttributeValue)) : Span :=
  fold_left (fun sp kv => setAttribute sp kv.1 kv.2) kvs sp.

Definition recordException (sp : Span) (ex : JsError) : Span := call (RecordException ex) sp.
Definition span_end (sp : Span) (endTime : Number) : Span := call (End endTime) sp.

(** The last value that a sequence of calls passes for each key. It is
    read off the calls: what a span keeps of them is its own business (it
    keeps no [null], and nothing that is set after its end). *)
Definition apply_call (m : gmap string AttributeValue) (c : SpanCall) : gmap string AttributeValue :=
  match c with
  | SetAttribute k v => <[k := v]> m
  | _ => m
  end.

Definition attributes (sp : Span) : gmap string AttributeValue :=
  fold_left apply_call (span_calls sp) ∅.

(** Keys of [SemanticAttributes] used by the file. *)
Definition FAAS_TRIGGER : string := "faas.trigger".
Definition FAAS_TIME : string := "faas.time".
Definition FAAS_CRON : string := "faas.cron".
Definition HTTP_METHOD : string := "http.method".
Definition HTTP_URL : string := "http.url".
Definition HTTP_TARGET : string := "http.target".
Definition HTTP_HOST : string := "http.host".
Definition NET_HOST_NAME : string := "net.host.name".
Definition NET_HOST_PORT : string := "net.host.port".
Definition HTTP_SCHEME : string := "http.scheme".
Definition HTTP_USER_AGENT : string := "http.user_agent".
Definition NET_PEER_IP : string := "net.peer.ip".
Definition HTTP_CLIENT_IP : string := "http.client_ip".
Definition HTTP_STATUS_CODE : string := "http.status_code".

End Otel.
Export Otel.

(** ** sdk.ts *)

(** An entry of an allow-list: [string | RegExp]. *)
Inductive AllowEntry :=
| Exact (s : string)
| Pattern (r : RegExp).

(** [allowedSearch : RegExp | (string | RegExp)[]]. *)
Inductive AllowedSearch :=
| SearchRegExp (r : RegExp)
| SearchArray (l : list AllowEntry).

Record WorkersSDK := {
  allowedHeaders : list AllowEntry;
  allowedSearch : AllowedSearch
}.

(** The field initialisers of [WorkersSDK]. *)
Definition default_allowedHeaders : list AllowEntry := [Exact "user-agent"; Exact "cf-ray"].
Definition default_allowedSearch : AllowedSearch := SearchRegExp regexp_any.
Definition new_WorkersSDK : WorkersSDK :=
  {| allowedHeaders := default_allowedHeaders; allowedSearch := default_allowedSearch |}.

Record ScheduledEvent := {
  event_type : string;
  scheduledTime : Z;
  cron : option string
}.

(** The objects [start] is typed for. A [ScheduledEvent] has a [type]
    property, a [Request] has none. *)
Inductive Trigger :=
| OfScheduledEvent (scheduledEvent : ScheduledEvent)
| OfRequest (request : Request).

(** What a caller can actually pass: an object, or [null] / [undefined]
    ([None]), which line 87 of the source tests for. *)
Definition EventOrRequest := option Trigger.

(** ['type' in obj] for an object. *)
Definition has_type (obj : Trigger) : bool :=
  match obj with
  | OfScheduledEvent _ => true
  | OfRequest _ => false
  end.

(** [!eventOrRequest]. *)
Definition is_falsy (eventOrRequest : EventOrRequest) : bool :=
  match eventOrRequest with
  | None => true
  | Some _ => false
  end.

(** Truthiness of a [string | undefined]. *)
Definition truthy_string (o : option string) : bool :=
  match o with
  | None => false
  | Some s => negb (String.eqb s "")
  end.

(** The callback given to [some] at lines 119-121, 150-152 and 195-197. *)
Definition entry_matches (key : string) (allowed : AllowEntry) : bool :=
  match allowed with
  | Exact s => String.eqb s key
  | Pattern r => test r key
  end.

Definition isAllowed (key : string) (allowList : list AllowEntry) : bool :=
  some (entry_matches key) allowList.

(** The test guarding [searchParams.append] (lines 117-127). *)
Definition search_allowed (allowed : AllowedSearch) (key : string) : bool :=
  match allowed with
  | SearchArray l => isAllowed key l
  | SearchRegExp r => test r key
  end.

(** The loop of lines 115-128. *)
Definition filtered_search (allowed : AllowedSearch) (params : list (string * string)) : URLSearchParams :=
  fold_left (fun searchParams kv =>
               if search_allowed allowed kv.1
               then URLSearchParams_append searchParams kv.1 kv.2
               else searchParams)
            params URLSearchParams_new.

(** The header loops of lines 145-160 and 190-205, which differ in the
    excluded name and in the attribute prefix. *)
Definition record_headers (excluded pre : string) (allowList : list AllowEntry)
    (h : Headers) (sp : Span) : Span :=
  fold_left (fun sp headerKey =>
               if String.eqb headerKey excluded then sp
               else if negb (isAllowed headerKey allowList) then sp
               else setAttribute sp (pre +:+ toLowerCase headerKey)
                                 (AttrArray [Headers_get h headerKey]))
            (Headers_keys h) sp.

Inductive Effect {RequestInit : Type} :=
| ConsoleWarn (msg : string)
| GlobalFetch (request : Request + string) (requestInitr : option RequestInit)
| ForceFlush
| WaitUntil.
Arguments Effect : clear implicits.

Definition in_null_message : string :=
  "Cannot use 'in' operator to search for 'type' in null".
Definition request_required_message : string :=
  "You must provide the request to start for fetch events!".
Definition fetch_after_flush_message : string :=
  "Fetch request sent after worker spans were flushed. Avoid using instance.fetch after calling sendResponse or captureException.".

Record WorkerInstance := {
  sdk : WorkersSDK;
  span : Span;
  flushed : bool;
  startTime : Number
}.

Section Sdk.

(** [new URL(s)]: the parsed URL, or [None] when the constructor throws. *)
Variable URL_new : string -> option URL.
(** The type of [RequestInit | Request] dictionaries handed on to the
    global [fetch]. *)
Variable RequestInit : Type.

Definition URL_construct (s : string) : Completion URL :=
  match URL_new s with
  | Some u => Normal u
  | None => Throw (TypeError "Invalid URL")
  end.

(** Lines 105-111. *)
Definition scheduled_attributes (scheduledEvent : ScheduledEvent) (sp : Span) : Span :=
  let sp := setAttribute sp FAAS_TRIGGER (AttrString "timer") in
  let sp := setAttribute sp FAAS_TIME (AttrNumber (scheduledTime scheduledEvent)) in
  if truthy_string (cron scheduledEvent)
  then setAttribute sp FAAS_CRON (attr_of_nullable (cron scheduledEvent))
  else sp.

(** Lines 113-160. *)
Definition request_attributes (this : WorkersSDK) (request : Request) (sp : Span) : Completion Span :=
  u ← URL_construct (url request);
  let searchParams := filtered_search (allowedSearch this) (searchParams u) in
  let search := URLSearchParams_toString searchParams in
  let target := pathname u +:+ (if String.eqb search "" then "" else "?" +:+ search) in
  let sp := setAttributes sp
    [ (HTTP_METHOD, AttrString (method request));
      (HTTP_URL, AttrString (url request));
      (HTTP_TARGET, AttrString target);
      (HTTP_HOST, AttrString (host u));
      (NET_HOST_NAME, AttrString (hostname u));
      (NET_HOST_PORT, AttrString (port u));
      (HTTP_SCHEME, AttrString (substring_0 (String.length (protocol u) - 1) (protocol u)));
      (HTTP_USER_AGENT, attr_of_nullable (Headers_get (headers request) "user-agent"));
      (NET_PEER_IP, attr_of_nullable (Headers_get (headers request) "cf-connecting-ip"));
      (HTTP_CLIENT_IP, attr_of_nullable (Headers_get (headers request) "cf-connecting-ip")) ] in
  Normal (record_headers "cookie" "http.request.header." (allowedHeaders this) (headers request) sp).

(** [WorkersSDK.getSpan] (lines 81-163). [now] is what [Date.now()]
    reads at line 100. The three tests ['type' in eventOrRequest] (lines
    83, 97 and 105) are the first [match], [has_type] and the last
    [match]; the first of them throws when the operand is not an object,
    before the guard of line 87 is reached. *)
Definition getSpan (this : WorkersSDK) (eventOrRequest : EventOrRequest) (now : Z) : Completion Span :=
  match eventOrRequest with
  | None =>
      (* line 83: the right operand of [in] is not an object *)
      Throw (TypeError in_null_message)
  | Some obj =>
      name ← match obj with
             | OfScheduledEvent scheduledEvent =>
                 Normal ("scheduled " +:+
                         match cron scheduledEvent with
                         | Some c => c
                         | None => Number_toString (scheduledTime scheduledEvent)
                         end)
             | OfRequest request =>
                 if is_falsy eventOrRequest
                 then Throw (Error request_required_message)
                 else u ← URL_construct (url request);
                      Normal ("fetch " +:+ method request +:+ " " +:+ pathname u)
             end;
      let sp := startSpan name
                  {| opt_kind := if has_type obj then SERVER else INTERNAL;
                     opt_root := true;
                     opt_startTime := Date_now now |} in
      match obj with
      | OfScheduledEvent scheduledEvent => Normal (scheduled_attributes scheduledEvent sp)
      | OfRequest request => request_attributes this request sp
      end
  end.

(** The constructor of [WorkerInstance] with its field initialisers;
    [now] is what [Date.now()] reads at line 168. *)
Definition new_WorkerInstance (s : WorkersSDK) (sp : Span) (now : Z) : WorkerInstance :=
  {| sdk := s; span := sp; flushed := false; startTime := Date_now now |}.

(** [WorkersSDK.start] (lines 72-75). *)
Definition start (this : WorkersSDK) (eventOrRequest : EventOrRequest)
    (now_span now_instance : Z) : Completion WorkerInstance :=
  sp ← getSpan this eventOrRequest now_span;
  Normal (new_WorkerInstance this sp now_instance).

Definition with_span (this : WorkerInstance) (sp : Span) : WorkerInstance :=
  {| sdk := sdk this; span := sp; flushed := flushed this; startTime := startTime this |}.

(** [this.context.waitUntil(this.sdk.end())], where [sdk.end()] is
    [spanProcessor.forceFlush()]. *)
Definition flush_effects : list (Effect RequestInit) := [ForceFlush; WaitUntil].

(** [WorkerInstance.fetch] (lines 176-184): its effects, in order. *)
Definition fetch (this : WorkerInstance) (request : Request + string)
    (requestInitr : option RequestInit) : list (Effect RequestInit) :=
  (if flushed this then [ConsoleWarn fetch_after_flush_message] else [])
    ++ [GlobalFetch request requestInitr].

(** Lines 207-210 and 220-223. *)
Definition nudged_end (this : WorkerInstance) (now : Z) : Number :=
  let endTime := Date_now now in
  if strict_eq (startTime this) endTime then num_add endTime lit_0_01 else endTime.

(** [WorkerInstance.sendResponse] (lines 186-215): the returned
    response, the instance afterwards, and the effects. *)
Definition sendResponse (this : WorkerInstance) (response : Response) (now : Z)
    : Response * WorkerInstance * list (Effect RequestInit) :=
  let sp := setAttributes (span this) [(HTTP_STATUS_CODE, AttrNumber (status response))] in
  let sp := record_headers "set-cookie" "http.response.header."
              (allowedHeaders (sdk this)) (response_headers response) sp in
  let endTime := nudged_end this now in
  let sp := span_end sp endTime in
  (response, with_span this sp, flush_effects).

(** [WorkerInstance.captureException] (lines 217-226). *)
Definition captureException (this : WorkerInstance) (ex : JsError) (now : Z)
    : WorkerInstance * list (Effect RequestInit) :=
  let sp := recordException (span this) ex in
  let endTime := nudged_end this now in
  let sp := span_end sp endTime in
  (with_span this sp, flush_effects).

End Sdk.

(** ** Concrete inputs

    The scenarios of the specification, used to run the definitions. *)

Module Sample.

Definition url_text : string := "https://svc.example/a/b?x=1&y=2".

Definition parsed : URL :=
  {| href := url_text; protocol := "https:"; host := "svc.example";
     hostname := "svc.example"; port := ""; pathname := "/a/b";
     searchParams := [("x", "1"); ("y", "2")] |}.

(** A [new URL] that knows the one URL of the scenarios. *)
Definition URL_new (s : string) : option URL :=
  if String.eqb s url_text then Some parsed else None.

Definition request : Request :=
  {| method := "GET"; url := url_text;
     headers := {| header_list := [("User-Agent", "UA1"); ("Cookie", "secret")] |} |}.

(** An SDK whose owner allow-listed the very names the code excludes. *)
Definition sdk_x : WorkersSDK :=
  {| allowedHeaders := [Exact "user-agent"; Exact "cookie"; Pattern regexp_any];
     allowedSearch := SearchArray [Exact "x"] |}.

Definition scheduled : ScheduledEvent :=
  {| event_type := "scheduled"; scheduledTime := 1700000000000; cron := Some "0 * * * *" |}.

Definition scheduled_empty_cron : ScheduledEvent :=
  {| event_type := "scheduled"; scheduledTime := 1700000000000; cron := Some "" |}.

Definition scheduled_no_cron : ScheduledEvent :=
  {| event_type := "scheduled"; scheduledTime := 1700000000000; cron := None |}.

Definition response_500 : Response :=
  {| status := 500;
     response_headers := {| header_list := [("Set-Cookie", "a=1"); ("CF-Ray", "r1"); ("Set-Cookie", "b=2")] |} |}.

End Sample.

(** ** sdk.ts: the constructor and sequences of outcome operations *)

(** Keys of [SemanticResourceAttributes] used by the constructor. *)
Definition CLOUD_PROVIDER : string := "cloud.provider".
Definition CLOUD_PLATFORM : string := "cloud.platform".
Definition SERVICE_NAME : string := "service.name".
Definition FAAS_NAME : string := "faas.name".
Definition PROCESS_RUNTIME_NAME : string := "process.runtime.name".

Inductive SamplerChoice {Sampler : Type} :=
| AlwaysOnSampler
| ConfiguredSampler (s : Sampler).
Arguments SamplerChoice : clear implicits.

(** A property of an exporter configuration object: the [url] is a
    string, the other options are whatever the exporter takes. *)
Inductive ExporterOption {OptionValue : Type} :=
| OptionString (s : string)
| OptionOther (v : OptionValue).
Arguments ExporterOption : clear implicits.

Section Constructor.

Variable Sampler : Type.
Variable OptionValue : Type.

(** [NodeSDKConfiguration] (lines 12-28); an absent optional property is
    [None]. *)
Record NodeSDKConfiguration := {
  endpoint : string;
  workerName : string;
  resource : option (gmap string AttributeValue);
  exporterConfig : option (gmap string (ExporterOption OptionValue));
  sampler : option Sampler
}.

(** What the constructor hands to its collaborators, with the two public
    fields. *)
Record Constructed := {
  sdk_resource : gmap string AttributeValue;
  exporter_options : gmap string (ExporterOption OptionValue);
  sdk_sampler : SamplerChoice Sampler;
  tracer_name : string;
  tracer_version : string;
  public_fields : WorkersSDK
}.

(** The object literal of lines 48-54. *)
Definition default_resource (name : string) : gmap string AttributeValue :=
  <[CLOUD_PROVIDER := AttrString "cloudflare"]>
  (<[CLOUD_PLATFORM := AttrString "workers"]>
  (<[SERVICE_NAME := AttrString name]>
  (<[FAAS_NAME := AttrString name]>
  (<[PROCESS_RUNTIME_NAME := AttrString "Cloudflare-Workers"]> ∅)))).

(** [{ url: config.endpoint, ...config.exporterConfig }] (lines 55-58):
    the properties spread last win. *)
Definition exporter_arguments (config : NodeSDKConfiguration)
    : gmap string (ExporterOption OptionValue) :=
  default ∅ (exporterConfig config) ∪ {["url" := OptionString (endpoint config)]}.

(** The constructor (lines 42-68). *)
Definition WorkersSDK_constructor (config : NodeSDKConfiguration) : Constructed :=
  {| sdk_resource := default (default_resource (workerName config)) (resource config);
     exporter_options := exporter_arguments config;
     sdk_sampler := match sampler config with
                    | Some s => ConfiguredSampler s
                    | None => AlwaysOnSampler
                    end;
     tracer_name := "opentelemetry-sdk-workers";
     tracer_version := "0.1.0";
     public_fields := new_WorkersSDK |}.

End Constructor.

(** One call of an outcome operation, with the clock reading it sees. *)
Inductive Outcome :=
| Respond (response : Response) (now : Z)
| Capture (ex : JsError) (now : Z).

Section Sequences.

Variable RequestInit : Type.

Definition perform (this : WorkerInstance) (o : Outcome)
    : WorkerInstance * list (Effect RequestInit) :=
  match o with
  | Respond response now =>
      let r := sendResponse RequestInit this response now in (r.1.2, r.2)
  | Capture ex now => captureException RequestInit this ex now
  end.

(** A caller making the calls of [ops] one after the other on the same
    instance: the instance at the end and all the effects, in order. *)
Fixpoint perform_all (ops : list Outcome) (this : WorkerInstance)
    : WorkerInstance * list (Effect RequestInit) :=
  match ops with
  | [] => (this, [])
  | o :: ops' =>
      let r := perform this o in
      let r' := perform_all ops' r.1 in
      (r'.1, r.2 ++ r'.2)
  end.

End Sequences.

(** The end times a span was given, oldest first. *)
Definition end_calls (sp : Span) : list Number :=
  omap (fun c => match c with End t => Some t | _ => None end) (span_calls sp).

(** The ten keys set by the [setAttributes] call of lines 132-143. *)
Definition request_keys : list string :=
  [HTTP_METHOD; HTTP_URL; HTTP_TARGET; HTTP_HOST; NET_HOST_NAME; NET_HOST_PORT;
   HTTP_SCHEME; HTTP_USER_AGENT; NET_PEER_IP; HTTP_CLIENT_IP].

(** Calls that set attributes and do nothing else. *)
Definition only_attributes (cs : list SpanCall) : Prop :=
  Forall (fun c => ∃ k v, c = SetAttribute k v) cs.

(** ** More concrete inputs *)

Module Scenario.

(** A configuration that gives only the two required properties. *)
Definition minimal_config : NodeSDKConfiguration unit unit :=
  {| endpoint := "https://collector.example/v1/traces"; workerName := "edge-worker";
     resource := None; exporterConfig := None; sampler := None |}.

(** The SDK of the scenarios with the entry [User-Agent], written with
    capitals, added to its header allow-list. *)
Definition sdk_capitalised : WorkersSDK :=
  {| allowedHeaders := [Exact "cf-ray"] ++ Exact "User-Agent" :: [];
     allowedSearch := default_allowedSearch |}.

(** The span of the request scenario and the instance around it. *)
Definition request_span : Span :=
  Eval vm_compute in
    match getSpan Sample.URL_new Sample.sdk_x (Some (OfRequest Sample.request)) 5 with
    | Normal sp => sp
    | Throw _ => startSpan "" {| opt_kind := INTERNAL; opt_root := true; opt_startTime := Date_now 0 |}
    end.

Definition request_instance : WorkerInstance :=
  new_WorkerInstance Sample.sdk_x request_span 5.

End Scenario.

(** ** Regular expressions with their flags and their [lastIndex]

    [RegExp.prototype.test] reads and writes the [lastIndex] of a pattern
    that carries the [g] or the [y] flag. The definitions above take
    patterns without these flags; the ones below take any pattern, and
    thread the [lastIndex] of every pattern object through the loops. *)

Module Stateful.

(** A pattern object: its identity (two entries that are the same object
    share one [lastIndex]), what it matches when tried at one index of
    the subject (the index where the match ends), and its two flags. *)
Record RegExpObject := {
  regexp_id : positive;
  matcher : string -> nat -> option nat;
  global : bool;
  sticky : bool
}.

(** Try at [i], then at the indices after it unless the pattern is sticky. *)
Fixpoint scan (m : nat -> option nat) (y : bool) (i fuel : nat) : option nat :=
  match fuel with
  | O => None
  | S fuel' =>
      match m i with
      | Some e => Some e
      | None => if y then None else scan m y (S i) fuel'
      end
  end.

(** The search of [RegExpBuiltinExec] from [lastIndex]: the end of the
    match found, if any. *)
Definition exec (r : RegExpObject) (s : string) (lastIndex : nat) : option nat :=
  if (String.length s <? lastIndex)%nat then None
  else scan (matcher r s) (sticky r) lastIndex (String.length s - lastIndex + 1).

(** [r.test(s)], given the [lastIndex] of every pattern object: without
    [g] and [y] the search starts at 0 and nothing is written; with one of
    them it starts at [lastIndex], which becomes the end of the match, or 0
    when there is none. *)
Definition RegExp_test (r : RegExpObject) (s : string) (σ : gmap positive nat)
    : bool * gmap positive nat :=
  if global r || sticky r then
    match exec r s (default 0%nat (σ !! regexp_id r)) with
    | Some e => (true, <[regexp_id r := e]> σ)
    | None => (false, <[regexp_id r := 0%nat]> σ)
    end
  else (match exec r s 0 with Some _ => true | None => false end, σ).

Inductive AllowEntry :=
| ExactEntry (s : string)
| RegExpEntry (r : RegExpObject).

Inductive AllowedSearch :=
| SearchRegExpObject (r : RegExpObject)
| SearchEntries (l : list AllowEntry).

Record WorkersSDK := {
  allowedHeaders : list AllowEntry;
  allowedSearch : AllowedSearch
}.

(** The callback given to [some] at lines 119-121, 150-152 and 195-197. *)
Definition entry_matches (key : string) (allowed : AllowEntry) (σ : gmap positive nat)
    : bool * gmap positive nat :=
  match allowed with
  | ExactEntry s => (String.eqb s key, σ)
  | RegExpEntry r => RegExp_test r key σ
  end.

(** [allowList.some(...)]: the entries after the first hit are not tested. *)
Fixpoint isAllowed (key : string) (allowList : list AllowEntry) (σ : gmap positive nat)
    : bool * gmap positive nat :=
  match allowList with
  | [] => (false, σ)
  | allowed :: rest =>
      let r := entry_matches key allowed σ in
      if r.1 then (true, r.2) else isAllowed key rest r.2
  end.

(** The test guarding [searchParams.append] (lines 117-127). *)
Definition search_allowed (allowed : AllowedSearch) (key : string) (σ : gmap positive nat)
    : bool * gmap positive nat :=
  match allowed with
  | SearchEntries l => isAllowed key l σ
  | SearchRegExpObject r => RegExp_test r key σ
  end.

(** The loop of lines 115-128. *)
Fixpoint filtered_search_from (allowed : AllowedSearch) (params : list (string * string))
    (searchParams : URLSearchParams) (σ : gmap positive nat)
    : URLSearchParams * gmap positive nat :=
  match params with
  | [] => (searchParams, σ)
  | kv :: rest =>
      let r := search_allowed allowed kv.1 σ in
      filtered_search_from allowed rest
        (if r.1 then URLSearchParams_append searchParams kv.1 kv.2 else searchParams) r.2
  end.

Definition filtered_search (allowed : AllowedSearch) (params : list (string * string))
    (σ : gmap positive nat) : URLSearchParams * gmap positive nat :=
  filtered_search_from allowed params URLSearchParams_new σ.

(** The header loops of lines 145-160 and 190-205. *)
Fixpoint record_headers_from (excluded pre : string) (allowList : list AllowEntry)
    (h : Headers) (keys : list string) (sp : Span) (σ : gmap positive nat)
    : Span * gmap positive nat :=
  match keys with
  | [] => (sp, σ)
  | headerKey :: rest =>
      if String.eqb headerKey excluded
      then record_headers_from excluded pre allowList h rest sp σ
      else
        let r := isAllowed headerKey allowList σ in
        if negb r.1
        then record_headers_from excluded pre allowList h rest sp r.2
        else record_headers_from excluded pre allowList h rest
               (setAttribute sp (pre +:+ toLowerCase headerKey)
                             (AttrArray [Headers_get h headerKey])) r.2
  end.

Definition record_headers (excluded pre : string) (allowList : list AllowEntry)
    (h : Headers) (sp : Span) (σ : gmap positive nat) : Span * gmap positive nat :=
  record_headers_from excluded pre allowList h (Headers_keys h) sp σ.

Record WorkerInstance := {
  sdk : WorkersSDK;
  span : Span;
  flushed : bool;
  startTime : Number
}.

Section Sdk.

Variable URL_new : string -> option URL.
Variable RequestInit : Type.

(** Lines 113-160. *)
Definition request_attributes (this : WorkersSDK) (request : Request) (sp : Span)
    (σ : gmap positive nat) : Completion Span * gmap positive nat :=
  match URL_new (url request) with
  | None => (Throw (TypeError "Invalid URL"), σ)
  | Some u =>
      let filtered := filtered_search (allowedSearch this) (searchParams u) σ in
      let search := URLSearchParams_toString filtered.1 in
      let target := pathname u +:+ (if String.eqb search "" then "" else "?" +:+ search) in
      let sp := setAttributes sp
        [ (HTTP_METHOD, AttrString (method request));
          (HTTP_URL, AttrString (url request));
          (HTTP_TARGET, AttrString target);
          (HTTP_HOST, AttrString (host u));
          (NET_HOST_NAME, AttrString (hostname u));
          (NET_HOST_PORT, AttrString (port u));
          (HTTP_SCHEME, AttrString (substring_0 (String.length (protocol u) - 1) (protocol u)));
          (HTTP_USER_AGENT, attr_of_nullable (Headers_get (headers request) "user-agent"));
          (NET_PEER_IP, attr_of_nullable (Headers_get (headers request) "cf-connecting-ip"));
          (HTTP_CLIENT_IP, attr_of_nullable (Headers_get (headers request) "cf-connecting-ip")) ] in
      let recorded := record_headers "cookie" "http.request.header." (allowedHeaders this)
                        (headers request) sp filtered.2 in
      (Normal recorded.1, recorded.2)
  end.

(** [WorkersSDK.getSpan] (lines 81-163), as [getSpan] above, with the
    [lastIndex] of the patterns before and after. *)
Definition getSpan (this : WorkersSDK) (eventOrRequest : EventOrRequest) (now : Z)
    (σ : gmap positive nat) : Completion Span * gmap positive nat :=
  match eventOrRequest with
  | None => (Throw (TypeError in_null_message), σ)
  | Some obj =>
      let kind := if has_type obj then SERVER else INTERNAL in
      let options := {| opt_kind := kind; opt_root := true; opt_startTime := Date_now now |} in
      match obj with
      | OfScheduledEvent scheduledEvent =>
          let name := "scheduled " +:+
                      match cron scheduledEvent with
                      | Some c => c
                      | None => Number_toString (scheduledTime scheduledEvent)
                      end in
          (Normal (scheduled_attributes scheduledEvent (startSpan name options)), σ)
      | OfRequest request =>
          if is_falsy eventOrRequest
          then (Throw (Error request_required_message), σ)
          else
            match URL_new (url request) with
            | None => (Throw (TypeError "Invalid URL"), σ)
            | Some u =>
                let name := "fetch " +:+ method request +:+ " " +:+ pathname u in
                request_attributes this request (startSpan name options) σ
            end
      end
  end.

(** [WorkerInstance.sendResponse] (lines 186-215). *)
Definition sendResponse (this : WorkerInstance) (response : Response) (now : Z)
    (σ : gmap positive nat)
    : Response * WorkerInstance * list (Effect RequestInit) * gmap positive nat :=
  let sp := setAttributes (span this) [(HTTP_STATUS_CODE, AttrNumber (status response))] in
  let recorded := record_headers "set-cookie" "http.response.header."
                    (allowedHeaders (sdk this)) (response_headers response) sp σ in
  let endTime := Date_now now in
  let endTime := if strict_eq (startTime this) endTime then num_add endTime lit_0_01
                 else endTime in
  let sp := span_end recorded.1 endTime in
  (response,
   {| sdk := sdk this; span := sp; flushed := flushed this; startTime := startTime this |},
   [ForceFlush; WaitUntil], recorded.2).

End Sdk.

(** Whether a pattern carries neither [g] nor [y]. *)
Definition flagless (r : RegExpObject) : Prop := global r = false ∧ sticky r = false.

Definition flagless_entry (a : AllowEntry) : Prop :=
  match a with
  | ExactEntry _ => True
  | RegExpEntry r => flagless r
  end.

Definition flagless_search (a : AllowedSearch) : Prop :=
  match a with
  | SearchRegExpObject r => flagless r
  | SearchEntries l => Forall flagless_entry l
  end.

(** Following the specification's words: a pattern matches a key when it
    matches at some index of the key; a key passes an allow-list when it
    equals some string entry or some pattern entry matches it; a query key
    passes when it passes the array, or when the single pattern matches it. *)
Definition matches_somewhere (r : RegExpObject) (s : string) : bool :=
  existsb (fun i => match matcher r s i with Some _ => true | None => false end)
          (seq 0 (S (String.length s))).

Definition spec_entry_admits (key : string) (a : AllowEntry) : bool :=
  match a with
  | ExactEntry s => String.eqb s key
  | RegExpEntry r => matches_somewhere r key
  end.

Definition spec_key_passes (allowList : list AllowEntry) (key : string) : bool :=
  existsb (spec_entry_admits key) allowList.

Definition spec_query_key_passes (allowed : AllowedSearch) (key : string) : bool :=
  match allowed with
  | SearchRegExpObject r => matches_somewhere r key
  | SearchEntries l => spec_key_passes l key
  end.

End Stateful.

(** The configuration without state that a flagless configuration is. *)
Definition erase_entry (a : Stateful.AllowEntry) : AllowEntry :=
  match a with
  | Stateful.ExactEntry s => Exact s
  | Stateful.RegExpEntry r => Pattern {| test := Stateful.matches_somewhere r |}
  end.

Definition erase_search (a : Stateful.AllowedSearch) : AllowedSearch :=
  match a with
  | Stateful.SearchRegExpObject r => SearchRegExp {| test := Stateful.matches_somewhere r |}
  | Stateful.SearchEntries l => SearchArray (map erase_entry l)
  end.

Definition erase (this : Stateful.WorkersSDK) : WorkersSDK :=
  {| allowedHeaders := map erase_entry (Stateful.allowedHeaders this);
     allowedSearch := erase_search (Stateful.allowedSearch this) |}.


(** ** Patterns with the [g] flag, as inputs *)

Module Flagged.

(** [/x/g]. *)
Definition regexp_x_g : Stateful.RegExpObject :=
  {| Stateful.regexp_id := 1;
     Stateful.matcher := fun s i => match String.get i s with
                                    | Some "x"%char => Some (S i)
                                    | _ => None
                                    end;
     Stateful.global := true; Stateful.sticky := false |}.

(** [/./g]: the dot matches any character but a line terminator. *)
Definition regexp_dot_g : Stateful.RegExpObject :=
  {| Stateful.regexp_id := 2;
     Stateful.matcher := fun s i => match String.get i s with
                                    | Some c => if Ascii.eqb c "010" || Ascii.eqb c "013"
                                                then None else Some (S i)
                                    | None => None
                                    end;
     Stateful.global := true; Stateful.sticky := false |}.

(** [/./], the same pattern without the flag. *)
Definition regexp_dot : Stateful.RegExpObject :=
  {| Stateful.regexp_id := 3;
     Stateful.matcher := Stateful.matcher regexp_dot_g;
     Stateful.global := false; Stateful.sticky := false |}.

Definition url_text : string := "https://svc.example/s?x=1&x=2&x=3".

Definition parsed : URL :=
  {| href := url_text; protocol := "https:"; host := "svc.example";
     hostname := "svc.example"; port := ""; pathname := "/s";
     searchParams := [("x", "1"); ("x", "2"); ("x", "3")] |}.

Definition URL_new (s : string) : option URL :=
  if String.eqb s url_text then Some parsed else None.

Definition request : Request :=
  {| method := "GET"; url := url_text;
     headers := {| header_list := [("A", "1"); ("B", "2"); ("C", "3")] |} |}.

(** [allowedSearch = /x/g]. *)
Definition sdk_x_g : Stateful.WorkersSDK :=
  {| Stateful.allowedHeaders := [Stateful.ExactEntry "user-agent"; Stateful.ExactEntry "cf-ray"];
     Stateful.allowedSearch := Stateful.SearchRegExpObject regexp_x_g |}.

(** [allowedHeaders = [/./]] and [allowedSearch = /./]. *)
Definition sdk_dot : Stateful.WorkersSDK :=
  {| Stateful.allowedHeaders := [Stateful.RegExpEntry regexp_dot];
     Stateful.allowedSearch := Stateful.SearchRegExpObject regexp_dot |}.

(** [['x', /./g]] and the same entries the other way round. *)
Definition string_then_pattern : list Stateful.AllowEntry :=
  [Stateful.ExactEntry "x"; Stateful.RegExpEntry regexp_dot_g].
Definition pattern_then_string : list Stateful.AllowEntry :=
  [Stateful.RegExpEntry regexp_dot_g; Stateful.ExactEntry "x"].

Definition response : Response :=
  {| status := 200;
     response_headers := {| header_list := [("Set-Cookie", "a=1"); ("CF-Ray", "r1")] |} |}.

(** An instance of [sdk_dot] around a span that has just been opened. *)
Definition instance : Stateful.WorkerInstance :=
  {| Stateful.sdk := sdk_dot;
     Stateful.span := startSpan "fetch GET /s"
                        {| opt_kind := INTERNAL; opt_root := true; opt_startTime := Date_now 5 |};
     Stateful.flushed := false;
     Stateful.startTime := Date_now 5 |}.

End Flagged.

(** The quotient [epochMillis / 1000] from which the tracing SDK, outside
    this file, computes the seconds and nanoseconds of a time that it was
    given as a number of milliseconds. *)
Definition epochSeconds (epochMillis : Number) : Number :=
  SFdiv prec emax epochMillis (of_Z 1000).

(** A call of one of the header loops: [setAttribute] of the prefixed
    name of a header that [keys] yields, other than the excluded one, with
    the one-element array around [get]. *)
Definition header_call (excluded pre : string) (h : Headers) (c : SpanCall) : Prop :=
  ∃ k, k ∈ Headers_keys h ∧ k ≠ excluded
       ∧ c = SetAttribute (pre +:+ toLowerCase k) (AttrArray [Headers_get h k]).

(** ** Properties of binary64 rounding and of the nudge *)

Lemma iter_pos_nat {A} (f : A -> A) p x : SpecFloat.iter_pos f p x = Nat.iter (Pos.to_nat p) f x.
Proof.
  revert x. induction p as [p IH|p IH|]; intros x.
  - rewrite Pos2Nat.inj_xI. cbn [SpecFloat.iter_pos]. rewrite !IH.
    replace (S (2 * Pos.to_nat p))%nat with (Pos.to_nat p + S (Pos.to_nat p))%nat by lia.
    rewrite Nat.iter_add, Nat.iter_succ, Nat.iter_swap. reflexivity.
  - rewrite Pos2Nat.inj_xO. cbn [SpecFloat.iter_pos]. rewrite !IH.
    replace (2 * Pos.to_nat p)%nat with (Pos.to_nat p + Pos.to_nat p)%nat by lia.
    rewrite Nat.iter_add. reflexivity.
  - reflexivity.
Qed.

Lemma shr_1_nonneg m r s :
  0 <= m -> shr_1 (Build_shr_record m r s) = Build_shr_record (m / 2) (Z.odd m) (r || s).
Proof.
  intros Hm. destruct m as [|p|p]; [reflexivity| |lia].
  rewrite <- Z.div2_div. destruct p; reflexivity.
Qed.

Lemma iter_shr_1 (n : nat) m :
  0 <= m ->
  Nat.iter (S n) shr_1 (Build_shr_record m false false) =
  Build_shr_record (m / 2 ^ Z.of_nat (S n)) (Z.odd (m / 2 ^ Z.of_nat n))
                   (negb (m mod 2 ^ Z.of_nat n =? 0)).
Proof.
  intros Hm. induction n as [|n IH].
  - change (Nat.iter 1 shr_1 ?x) with (shr_1 x). rewrite shr_1_nonneg by lia. simpl Z.of_nat.
    rewrite Z.pow_0_r, Z.div_1_r, Z.mod_1_r. reflexivity.
  - rewrite Nat.iter_succ, IH.
    assert (0 < 2 ^ Z.of_nat n) as Hk by (apply Z.pow_pos_nonneg; lia).
    assert (0 < 2 ^ Z.of_nat (S n)) as Hk' by (apply Z.pow_pos_nonneg; lia).
    rewrite shr_1_nonneg by (apply Z.div_pos; lia).
    f_equal.
    + rewrite Z.div_div by lia. f_equal.
      rewrite (Nat2Z.inj_succ (S n)), Z.pow_succ_r by lia. lia.
    + rewrite (Nat2Z.inj_succ n), Z.pow_succ_r by lia.
      rewrite (Z.mul_comm 2), Z.rem_mul_r by lia.
      rewrite Zodd_mod.
      pose proof (Z.mod_pos_bound m (2 ^ Z.of_nat n) Hk).
      pose proof (Z.mod_pos_bound (m / 2 ^ Z.of_nat n) 2 ltac:(lia)).
      destruct (Z.eqb_spec (m mod 2 ^ Z.of_nat n) 0) as [E|E];
        destruct (Z.eqb_spec ((m / 2 ^ Z.of_nat n) mod 2) 1) as [E2|E2]; simpl;
        symmetry; first [apply Bool.negb_true_iff, Z.eqb_neq|apply Bool.negb_false_iff, Z.eqb_eq]; nia.
Qed.

Lemma digits2_pos_bounds p :
  2 ^ (Zpos (digits2_pos p) - 1) <= Zpos p < 2 ^ Zpos (digits2_pos p).
Proof.
  induction p as [p IH|p IH|]; cbn [digits2_pos].
  - rewrite Pos2Z.inj_succ. replace (Z.succ (Zpos (digits2_pos p)) - 1) with (Z.succ (Zpos (digits2_pos p) - 1)) by lia.
    rewrite !Z.pow_succ_r by lia. lia.
  - rewrite Pos2Z.inj_succ. replace (Z.succ (Zpos (digits2_pos p)) - 1) with (Z.succ (Zpos (digits2_pos p) - 1)) by lia.
    rewrite !Z.pow_succ_r by lia. lia.
  - simpl. lia.
Qed.

Lemma digits2_pos_unique p D :
  2 ^ (D - 1) <= Zpos p < 2 ^ D -> Zpos (digits2_pos p) = D.
Proof.
  intros [Hlo Hhi]. pose proof (digits2_pos_bounds p) as [Hlo' Hhi'].
  assert (0 < D).
  { destruct (Z_lt_le_dec 0 D); [assumption|]. exfalso.
    destruct (Z.eq_dec D 0) as [->|]; [simpl in Hhi; lia|].
    rewrite Z.pow_neg_r in Hhi by lia. lia. }
  destruct (Z.lt_trichotomy (Zpos (digits2_pos p)) D) as [Hlt|[Heq|Hgt]]; [|assumption|]; exfalso.
  - assert (2 ^ Zpos (digits2_pos p) <= 2 ^ (D - 1)) by (apply Z.pow_le_mono_r; lia). lia.
  - assert (2 ^ D <= 2 ^ (Zpos (digits2_pos p) - 1)) by (apply Z.pow_le_mono_r; lia). lia.
Qed.

Lemma iter_xO_mul p d : Zpos (Pos.iter xO p d) = Zpos p * 2 ^ Zpos d.
Proof.
  induction d as [|d IH] using Pos.peano_ind.
  - simpl. lia.
  - rewrite Pos.iter_succ, Pos2Z.inj_succ, Z.pow_succ_r by lia.
    rewrite Pos2Z.inj_xO, IH. lia.
Qed.

Lemma shr_fexp_eq m e l :
  shr_fexp 53 1024 (Zpos m) e l =
  shr (shr_record_of_loc (Zpos m) l) e (Z.max (Zpos (digits2_pos m) + e - 53) (-1074) - e).
Proof. reflexivity. Qed.

Lemma shr_exact_pos m e n :
  0 < n ->
  shr (Build_shr_record (Zpos m) false false) e n =
  (Build_shr_record (Zpos m / 2 ^ n) (Z.odd (Zpos m / 2 ^ (n - 1)))
                    (negb (Zpos m mod 2 ^ (n - 1) =? 0)), e + n).
Proof.
  intros Hn. destruct n as [|p|p]; try lia. unfold shr. f_equal.
  rewrite iter_pos_nat.
  destruct (Pos.to_nat p) as [|k] eqn:Hk; [lia|].
  rewrite iter_shr_1 by lia.
  replace (Z.of_nat (S k)) with (Zpos p) by lia.
  replace (Z.of_nat k) with (Zpos p - 1) by lia. reflexivity.
Qed.

(** The second normalisation step of [binary_round_aux], on a mantissa
    that has 53 bits or is exactly [2^53]. *)
Lemma renormalize sx q e :
  2 ^ 52 <= Zpos q <= 2 ^ 53 -> -1074 <= e -> e + 1 <= 971 ->
  (let '(mrs, e') := shr_fexp 53 1024 (Zpos q) e loc_Exact in
   match shr_m mrs with
   | Z0 => S754_zero sx
   | Zpos m => if Z.leb e' (1024 - 53) then S754_finite sx m e' else S754_infinity sx
   | Zneg _ => S754_nan
   end) =
  if Zpos q <? 2 ^ 53 then S754_finite sx q e else S754_finite sx (2 ^ 52)%positive (e + 1).
Proof.
  intros Hq He1 He2. rewrite shr_fexp_eq.
  destruct (Z.ltb_spec (Zpos q) (2 ^ 53)) as [Hlt|Hge].
  - rewrite (digits2_pos_unique q 53) by lia.
    replace (Z.max (53 + e - 53) (-1074) - e) with 0 by lia.
    cbn [shr_record_of_loc shr shr_m]. rewrite (proj2 (Z.leb_le e (1024 - 53))) by lia. reflexivity.
  - assert (Zpos q = 2 ^ 53) as Hq' by lia.
    assert (q = (2 ^ 53)%positive) as -> by (apply Pos2Z.inj; rewrite Hq'; reflexivity).
    replace (Z.max (Zpos (digits2_pos (2 ^ 53)) + e - 53) (-1074) - e) with 1
      by (change (Zpos (digits2_pos (2 ^ 53))) with 54; lia).
    cbn [shr_record_of_loc]. unfold shr. cbn [SpecFloat.iter_pos]. simpl shr_m.
    rewrite (proj2 (Z.leb_le (e + 1) (1024 - 53))) by lia. reflexivity.
Qed.

(** The bit below the cut and the bits below it, read off the remainder. *)
Lemma round_bits m n r rbit sticky :
  0 < n ->
  r = Zpos m mod 2 ^ n ->
  rbit = Z.odd (Zpos m / 2 ^ (n - 1)) ->
  sticky = negb (Zpos m mod 2 ^ (n - 1) =? 0) ->
  (2 ^ n < 2 * r -> rbit = true ∧ sticky = true) ∧ (2 * r < 2 ^ n -> rbit = false).
Proof.
  intros Hn Hr Hrbit Hsticky.
  assert (0 < 2 ^ (n - 1)) as Hn1 by (apply Z.pow_pos_nonneg; lia).
  assert (2 ^ n = 2 ^ (n - 1) * 2) as Hsplit
    by (replace n with (Z.succ (n - 1)) at 1 by lia; rewrite Z.pow_succ_r by lia; lia).
  pose proof (Z.rem_mul_r (Zpos m) (2 ^ (n - 1)) 2 ltac:(lia) ltac:(lia)) as Hrem.
  rewrite <- Hsplit, <- Hr in Hrem.
  pose proof (Z.mod_pos_bound (Zpos m) (2 ^ (n - 1)) Hn1) as Hlow.
  pose proof (Z.mod_pos_bound (Zpos m / 2 ^ (n - 1)) 2 ltac:(lia)) as Hbit.
  rewrite Hrbit, Hsticky, Zodd_mod. split.
  - intros Hgt. split; [apply Z.eqb_eq|apply Bool.negb_true_iff, Z.eqb_neq]; nia.
  - intros Hlt. apply Z.eqb_neq. nia.
Qed.

Lemma binary_round_aux_53 sx m e :
  53 <= Zpos (digits2_pos m) ->
  -1074 <= e + (Zpos (digits2_pos m) - 53) ->
  e + (Zpos (digits2_pos m) - 53) + 1 <= 971 ->
  exists m' e',
    binary_round_aux 53 1024 sx (Zpos m) e loc_Exact = S754_finite sx m' e'
    ∧ round_result m e m' e'.
Proof.
  unfold round_result, binary_round_aux. rewrite shr_fexp_eq.
  pose proof (digits2_pos_bounds m) as [Hmlo Hmhi].
  remember (Zpos (digits2_pos m)) as D eqn:HeqD. clear HeqD.
  remember (D - 53) as n eqn:Heqn.
  intros HD Hlo Hhi.
  assert (0 < 2 ^ n) as Hn2 by (apply Z.pow_pos_nonneg; lia).
  assert (2 ^ (D - 1) = 2 ^ 52 * 2 ^ n) as HD1
    by (rewrite <- Z.pow_add_r by lia; f_equal; lia).
  assert (2 ^ D = 2 ^ 53 * 2 ^ n) as HD2
    by (rewrite <- Z.pow_add_r by lia; f_equal; lia).
  pose proof (Z.div_mod (Zpos m) (2 ^ n) ltac:(lia)) as Hdm.
  pose proof (Z.mod_pos_bound (Zpos m) (2 ^ n) Hn2) as Hr.
  remember (Zpos m / 2 ^ n) as q eqn:Heqq.
  remember (Zpos m mod 2 ^ n) as r eqn:Heqr.
  assert (2 ^ 52 <= q < 2 ^ 53) as Hq by nia.
  replace (Z.max (D + e - 53) (-1074) - e) with n by lia.
  destruct (Z.eq_dec n 0) as [Hn0|Hn0].
  - (* nothing to shift out *)
    rewrite Hn0 in *. rewrite Z.pow_0_r in *. rewrite Z.div_1_r in Heqq. rewrite Z.mod_1_r in Heqr.
    cbn [shr_record_of_loc shr shr_m loc_of_shr_record round_nearest_even].
    rewrite renormalize by lia.
    replace (Zpos m <? 2 ^ 53) with true by (symmetry; apply Z.ltb_lt; lia).
    exists m, e. split; [reflexivity|]. split; [lia|]. left. lia.
  - cbn [shr_record_of_loc]. rewrite shr_exact_pos by lia. rewrite <- Heqq.
    remember (Z.odd (Zpos m / 2 ^ (n - 1))) as rbit eqn:Hrbit.
    remember (negb (Zpos m mod 2 ^ (n - 1) =? 0)) as sticky eqn:Hsticky.
    cbn [shr_m].
    destruct (round_bits m n r rbit sticky ltac:(lia) Heqr Hrbit Hsticky) as [Hbits_up Hbits_down].
    remember (round_nearest_even q (loc_of_shr_record (Build_shr_record q rbit sticky)))
      as q' eqn:Hq'def.
    assert (q <= q' <= q + 1) as Hq'.
    { subst q'. destruct rbit, sticky; cbn [loc_of_shr_record round_nearest_even];
        try destruct (Z.even q); lia. }
    assert (2 ^ n < 2 * r -> q' = q + 1) as Hup.
    { intros Hgt. destruct (Hbits_up Hgt) as [Hrb Hst]. rewrite Hq'def, Hrb, Hst. reflexivity. }
    assert (2 * r < 2 ^ n -> q' = q) as Hdown.
    { intros Hlt. rewrite Hq'def, (Hbits_down Hlt). by destruct sticky. }
    clear Hq'def. destruct q' as [|pq'|pq']; try lia.
    rewrite renormalize by lia.
    destruct (Z.ltb_spec (Zpos pq') (2 ^ 53)) as [Hlt|Hge].
    + exists pq', (e + n). split; [reflexivity|]. split; [lia|]. left. auto.
    + exists (2 ^ 52)%positive, (e + n + 1). split; [reflexivity|]. split; [simpl; lia|].
      right. split; [done|]. split; [lia|].
      destruct (Z_lt_le_dec (2 * r) (2 ^ n)) as [Hlt|Hle]; [|done].
      specialize (Hdown Hlt). lia.
Qed.

Lemma shl_align_spec m e e' :
  e' <= e -> exists m', shl_align m e e' = (m', e') ∧ Zpos m' = Zpos m * 2 ^ (e - e').
Proof.
  intros Hle. unfold shl_align. destruct (e' - e) as [|k|k] eqn:Hk; try lia.
  - exists m. replace e' with e by lia. rewrite Z.sub_diag, Z.pow_0_r. split; [done|lia].
  - exists (Pos.iter xO m k). split; [done|]. rewrite iter_xO_mul. f_equal. f_equal. lia.
Qed.

Lemma shl_align_id m e e' : e <= e' -> shl_align m e e' = (m, e).
Proof. intros Hle. unfold shl_align. destruct (e' - e) eqn:Hk; try done. lia. Qed.

Lemma fexp_53 x : fexp prec emax x = Z.max (x - 53) (-1074).
Proof. reflexivity. Qed.

Lemma pow2_split a b : 0 <= a -> 0 <= b -> 2 ^ (a + b) = 2 ^ a * 2 ^ b.
Proof. intros. by apply Z.pow_add_r. Qed.

Lemma pow2_pos a : 0 <= a -> 0 < 2 ^ a.
Proof. intros. by apply Z.pow_pos_nonneg. Qed.

Lemma digits2_pos_mono p1 p2 :
  (p1 <= p2)%positive -> Zpos (digits2_pos p1) <= Zpos (digits2_pos p2).
Proof.
  intros Hle. pose proof (digits2_pos_bounds p1) as [Hlo1 _].
  pose proof (digits2_pos_bounds p2) as [_ Hhi2].
  assert (2 ^ (Zpos (digits2_pos p1) - 1) < 2 ^ Zpos (digits2_pos p2)) as Hlt by lia.
  apply Z.pow_lt_mono_r_iff in Hlt; lia.
Qed.

Lemma digits2_pos_below p k : 0 <= k -> Zpos p < 2 ^ k -> Zpos (digits2_pos p) <= k.
Proof.
  intros Hk Hlt. pose proof (digits2_pos_bounds p) as [Hlo _].
  assert (2 ^ (Zpos (digits2_pos p) - 1) < 2 ^ k) as H by lia.
  apply Z.pow_lt_mono_r_iff in H; lia.
Qed.

(** An integer of at most 53 bits is a Number as it is: the mantissa is
    the magnitude shifted up to 53 bits. *)
Lemma binary_round_integer sx p :
  Zpos (digits2_pos p) <= 53 ->
  ∃ m, binary_round prec emax sx p 0 = S754_finite sx m (Zpos (digits2_pos p) - 53)
       ∧ Zpos m = Zpos p * 2 ^ (53 - Zpos (digits2_pos p))
       ∧ 2 ^ 52 <= Zpos m < 2 ^ 53.
Proof.
  intros Hd. pose proof (digits2_pos_bounds p) as [Hlo Hhi].
  remember (Zpos (digits2_pos p)) as d eqn:Heqd.
  assert (0 < d) as Hd0 by lia.
  unfold binary_round. rewrite <- Heqd, fexp_53. unfold prec, emax.
  destruct (shl_align_spec p 0 (Z.max (d + 0 - 53) (-1074))) as (mz & -> & Hmz); [lia|].
  replace (0 - Z.max (d + 0 - 53) (-1074)) with (53 - d) in Hmz by lia.
  replace (Z.max (d + 0 - 53) (-1074)) with (d - 53) by lia.
  assert (2 ^ 52 <= Zpos mz < 2 ^ 53) as Hmz53.
  { assert (2 ^ 52 = 2 ^ (d - 1) * 2 ^ (53 - d)) as ->
      by (rewrite <- pow2_split by lia; f_equal; lia).
    assert (2 ^ 53 = 2 ^ d * 2 ^ (53 - d)) as ->
      by (rewrite <- pow2_split by lia; f_equal; lia).
    pose proof (pow2_pos (53 - d) ltac:(lia)). nia. }
  assert (Zpos (digits2_pos mz) = 53) as Hdz by (by apply digits2_pos_unique).
  destruct (binary_round_aux_53 sx mz (d - 53)) as (m' & e' & -> & Hres); [lia..|].
  unfold round_result in Hres. rewrite Hdz, Z.sub_diag, Z.pow_0_r, Z.div_1_r, Z.mod_1_r in Hres.
  destruct Hres as [Hm' [(-> & _ & _ & Hex)|(_ & _ & Hne)]]; [|lia].
  specialize (Hex ltac:(lia)). apply Pos2Z.inj in Hex as ->.
  exists mz. rewrite Z.add_0_r. done.
Qed.

Lemma lit_0_01_eq : lit_0_01 = S754_finite false 5764607523034235 (-59).
Proof. reflexivity. Qed.

(** [t + 0.01] for a positive instant [t] below [2^47]. *)
Lemma add_lit_pos p :
  Zpos (digits2_pos p) <= 47 ->
  ∃ m' e', num_add (of_Z (Zpos p)) lit_0_01 = S754_finite false m' e'
    ∧ 2 ^ 52 <= Zpos m' < 2 ^ 53
    ∧ ((e' = Zpos (digits2_pos p) - 53 ∧ Zpos p * 2 ^ (53 - Zpos (digits2_pos p)) < Zpos m')
       ∨ e' = Zpos (digits2_pos p) - 52).
Proof.
  intros Hd. change (of_Z (Zpos p)) with (binary_round prec emax false p 0).
  destruct (binary_round_integer false p) as (mt & -> & Hmt & Hmt53); [lia|].
  pose proof (digits2_pos_bounds p) as [Hlo Hhi].
  remember (Zpos (digits2_pos p)) as d eqn:Heqd.
  assert (0 < d) as Hd0 by lia.
  rewrite lit_0_01_eq. unfold num_add, SFadd. cbn [cond_Zopp].
  replace (Z.min (d - 53) (-59)) with (-59) by lia.
  destruct (shl_align_spec mt (d - 53) (-59)) as (ma & -> & Hma); [lia|].
  rewrite shl_align_id by lia. cbn [fst].
  replace (d - 53 - -59) with (d + 6) in Hma by lia.
  rewrite <- Pos2Z.inj_add. cbn [binary_normalize]. unfold binary_round.
  remember (ma + 5764607523034235)%positive as M eqn:HeqM.
  assert (Zpos M = Zpos p * 2 ^ 59 + 5764607523034235) as HM.
  { rewrite HeqM, Pos2Z.inj_add, Hma, Hmt, <- Z.mul_assoc, <- pow2_split by lia.
    do 3 f_equal. lia. }
  pose proof (pow2_pos (d - 1) ltac:(lia)) as Hp1.
  assert (2 ^ d = 2 * 2 ^ (d - 1)) as Hp2
    by (replace d with (Z.succ (d - 1)) at 1 by lia; apply Z.pow_succ_r; lia).
  assert (Zpos (digits2_pos M) = d + 59) as HdM.
  { apply digits2_pos_unique. rewrite HM.
    replace (d + 59 - 1) with ((d - 1) + 59) by lia. rewrite !pow2_split by lia.
    change (2 ^ 59) with 576460752303423488. nia. }
  rewrite HdM, fexp_53. rewrite shl_align_id by lia. unfold prec, emax.
  destruct (binary_round_aux_53 false M (-59)) as (m' & e' & -> & Hres); [lia..|].
  exists m', e'. split; [done|].
  unfold round_result in Hres. rewrite HdM in Hres.
  replace (d + 59 - 53) with (d + 6) in Hres by lia.
  pose proof (pow2_pos (d + 6) ltac:(lia)) as Hp6.
  assert (Zpos p * 2 ^ 59 = Zpos p * 2 ^ (53 - d) * 2 ^ (d + 6)) as Hsplit.
  { rewrite <- Z.mul_assoc, <- pow2_split by lia. do 2 f_equal. lia. }
  rewrite HM, Hsplit in Hres.
  rewrite (Z.add_comm (_ * 2 ^ (d + 6))) in Hres.
  rewrite Z.div_add, Z.mod_add in Hres by lia.
  destruct Hres as [Hm' [(-> & Hq & Hup & _)|(-> & _ & _)]]; (split; [done|]); [|right; lia].
  left. split; [lia|].
  destruct (Z.eq_dec d 47) as [Hd47|Hd47].
  - rewrite Hd47 in *.
    assert (2 ^ (47 + 6) < 2 * (5764607523034235 mod 2 ^ (47 + 6))) as Hgt by reflexivity.
    specialize (Hup Hgt). rewrite Hup.
    change (5764607523034235 / 2 ^ (47 + 6)) with 0. lia.
  - assert (1 <= 5764607523034235 / 2 ^ (d + 6)); [|lia].
    apply Z.div_le_lower_bound; [lia|].
    assert (2 ^ (d + 6) <= 2 ^ 52) by (apply Z.pow_le_mono_r; lia).
    change (2 ^ 52) with 4503599627370496 in *. lia.
Qed.

(** [t + 0.01] for a negative instant [t = -p] above [-2^47]: the
    magnitude shrinks. *)
Lemma add_lit_neg p :
  Zpos (digits2_pos p) <= 47 ->
  ∃ m' e', num_add (of_Z (Zneg p)) lit_0_01 = S754_finite true m' e'
    ∧ 2 ^ 52 <= Zpos m' < 2 ^ 53
    ∧ ((e' = Zpos (digits2_pos p) - 53 ∧ Zpos m' < Zpos p * 2 ^ (53 - Zpos (digits2_pos p)))
       ∨ e' < Zpos (digits2_pos p) - 53).
Proof.
  intros Hd. change (of_Z (Zneg p)) with (binary_round prec emax true p 0).
  destruct (binary_round_integer true p) as (mt & -> & Hmt & Hmt53); [lia|].
  pose proof (digits2_pos_bounds p) as [Hlo Hhi].
  remember (Zpos (digits2_pos p)) as d eqn:Heqd.
  assert (0 < d) as Hd0 by lia.
  rewrite lit_0_01_eq. unfold num_add, SFadd. cbn [cond_Zopp].
  replace (Z.min (d - 53) (-59)) with (-59) by lia.
  destruct (shl_align_spec mt (d - 53) (-59)) as (ma & -> & Hma); [lia|].
  rewrite shl_align_id by lia. cbn [fst].
  replace (d - 53 - -59) with (d + 6) in Hma by lia.
  pose proof (pow2_pos (d - 1) ltac:(lia)) as Hp1.
  pose proof (pow2_pos (d + 6) ltac:(lia)) as Hp6.
  pose proof (pow2_pos (53 - d) ltac:(lia)) as Hp53.
  assert (2 ^ d = 2 * 2 ^ (d - 1)) as Hp2
    by (replace d with (Z.succ (d - 1)) at 1 by lia; apply Z.pow_succ_r; lia).
  assert (2 ^ (d + 6) <= 2 ^ 53) as Hn53 by (apply Z.pow_le_mono_r; lia).
  assert (2 ^ 59 <= Zpos ma) as Hma59.
  { rewrite Hma. replace 59 with ((53 - d) + (d + 6)) by lia. rewrite pow2_split by lia.
    assert (2 ^ 52 = 2 ^ (d - 1) * 2 ^ (53 - d)) as E52
      by (rewrite <- pow2_split by lia; f_equal; lia).
    assert (2 ^ (53 - d) * 2 ^ (d - 1) <= Zpos mt) by lia.
    assert (2 ^ (53 - d) <= Zpos mt) by nia. nia. }
  change (2 ^ 59) with 576460752303423488 in Hma59.
  change (2 ^ 53) with 9007199254740992 in Hn53.
  change (Z.opp (Zpos ma)) with (Zneg ma).
  assert (Zneg ma + 5764607523034235 = Zneg (ma - 5764607523034235)) as ->.
  { rewrite Pos2Z.add_neg_pos, Z.pos_sub_lt by lia. reflexivity. }
  cbn [binary_normalize]. unfold binary_round.
  remember (ma - 5764607523034235)%positive as M eqn:HeqM.
  assert (Zpos M = Zpos mt * 2 ^ (d + 6) - 5764607523034235) as HM
    by (rewrite HeqM, Pos2Z.inj_sub, Hma by lia; reflexivity).
  destruct (Z.eq_dec (Zpos p) (2 ^ (d - 1))) as [Hpow|Hnpow].
  - (* a power of two: the sum falls into the binade below *)
    assert (Zpos mt = 2 ^ 52) as Hmt52.
    { rewrite Hmt, Hpow, <- pow2_split by lia. f_equal. lia. }
    assert (2 ^ (d + 58) = 2 ^ 52 * 2 ^ (d + 6)) as E58
      by (rewrite <- pow2_split by lia; f_equal; lia).
    assert (2 ^ (d + 58) = 2 * 2 ^ (d + 57)) as E57
      by (replace (d + 58) with (Z.succ (d + 57)) by lia; apply Z.pow_succ_r; lia).
    assert (2 ^ 58 <= 2 ^ (d + 57)) as H58 by (apply Z.pow_le_mono_r; lia).
    change (2 ^ 58) with 288230376151711744 in H58.
    assert (Zpos (digits2_pos M) = d + 58) as HdM.
    { apply digits2_pos_unique. rewrite HM, Hmt52, <- E58.
      replace (d + 58 - 1) with (d + 57) by lia. lia. }
    rewrite HdM, fexp_53. rewrite shl_align_id by lia. unfold prec, emax.
    destruct (binary_round_aux_53 true M (-59)) as (m' & e' & -> & Hres); [lia..|].
    exists m', e'. split; [done|].
    unfold round_result in Hres. rewrite HdM in Hres.
    replace (d + 58 - 53) with (d + 5) in Hres by lia.
    pose proof (pow2_pos (d + 5) ltac:(lia)) as Hp5.
    assert (2 ^ (d + 6) = 2 * 2 ^ (d + 5)) as E6
      by (replace (d + 6) with (Z.succ (d + 5)) by lia; apply Z.pow_succ_r; lia).
    pose proof (Z.div_mod (Zpos M) (2 ^ (d + 5)) ltac:(lia)) as Hdm.
    pose proof (Z.mod_pos_bound (Zpos M) (2 ^ (d + 5)) Hp5) as Hr.
    destruct Hres as [Hm' [(-> & _)|(-> & Hcarry & _)]]; (split; [done|]); [right; lia|].
    exfalso. change (2 ^ 53) with 9007199254740992 in Hcarry.
    change (2 ^ 52) with 4503599627370496 in *. nia.
  - (* otherwise the sum stays in the binade of [t] *)
    assert (2 ^ (d - 1) + 1 <= Zpos p) as Hp' by lia.
    assert (2 ^ (d + 58) = 2 ^ (d - 1) * 2 ^ 59) as E58
      by (rewrite <- pow2_split by lia; f_equal; lia).
    assert (2 ^ (d + 59) = 2 ^ d * 2 ^ 59) as E59 by (apply pow2_split; lia).
    assert (Zpos mt * 2 ^ (d + 6) = Zpos p * 2 ^ 59) as Hmt59.
    { rewrite Hmt, <- Z.mul_assoc, <- pow2_split by lia. do 2 f_equal. lia. }
    assert (Zpos (digits2_pos M) = d + 59) as HdM.
    { apply digits2_pos_unique. rewrite HM, Hmt59.
      replace (d + 59 - 1) with (d + 58) by lia. rewrite E58, E59.
      change (2 ^ 59) with 576460752303423488. nia. }
    rewrite HdM, fexp_53. rewrite shl_align_id by lia. unfold prec, emax.
    destruct (binary_round_aux_53 true M (-59)) as (m' & e' & -> & Hres); [lia..|].
    exists m', e'. split; [done|].
    unfold round_result in Hres. rewrite HdM in Hres.
    replace (d + 59 - 53) with (d + 6) in Hres by lia.
    pose proof (Z.div_mod (Zpos M) (2 ^ (d + 6)) ltac:(lia)) as Hdm.
    pose proof (Z.mod_pos_bound (Zpos M) (2 ^ (d + 6)) Hp6) as Hr.
    remember (Zpos M / 2 ^ (d + 6)) as q eqn:Heqq.
    remember (Zpos M mod 2 ^ (d + 6)) as r eqn:Heqr.
    assert (q <= Zpos mt - 1) as Hq1 by nia.
    assert (q = Zpos mt - 1 -> 2 * r < 2 ^ (d + 6)) as Hq2 by (intros ->; nia).
    rewrite <- Hmt.
    destruct Hres as [Hm' [(-> & Hq & _ & Hdown)|(-> & Hcarry & Hhalf)]]; (split; [done|]).
    + left. split; [lia|].
      destruct (Z.eq_dec q (Zpos mt - 1)) as [Heq|Hne]; [|lia].
      rewrite (Hdown (Hq2 Heq)). lia.
    + exfalso. assert (q = Zpos mt - 1) as Heq by lia. specialize (Hq2 Heq). lia.
Qed.

(** Order of two normal numbers of the same sign. *)
Lemma lt_normal m1 e1 m2 e2 :
  (e1 < e2 ∨ (e1 = e2 ∧ Zpos m1 < Zpos m2)) ->
  num_lt (S754_finite false m1 e1) (S754_finite false m2 e2) = true.
Proof.
  unfold num_lt, SFltb, SFcompare. intros [Hlt|[-> Hlt]].
  - by rewrite (proj2 (Z.compare_lt_iff e1 e2) Hlt).
  - rewrite Z.compare_refl. rewrite Pos.compare_cont_spec. simpl.
    by rewrite (proj2 (Pos.compare_lt_iff m1 m2) Hlt).
Qed.

Lemma lt_normal_neg m1 e1 m2 e2 :
  (e2 < e1 ∨ (e1 = e2 ∧ Zpos m2 < Zpos m1)) ->
  num_lt (S754_finite true m1 e1) (S754_finite true m2 e2) = true.
Proof.
  unfold num_lt, SFltb, SFcompare. intros [Hlt|[-> Hlt]].
  - by rewrite (proj2 (Z.compare_gt_iff e1 e2) Hlt).
  - rewrite Z.compare_refl. rewrite Pos.compare_cont_spec. simpl.
    by rewrite (proj2 (Pos.compare_gt_iff m1 m2) Hlt).
Qed.

(** The heart of the nudge: for an instant [t] from [-2^47] up to, but
    excluding, [2^47], [t + 0.01] is strictly later than [t] and than every
    earlier instant. *)
Lemma add_lit_later t t0 :
  - 2 ^ 47 <= t0 <= t -> t < 2 ^ 47 ->
  num_lt (of_Z t0) (num_add (of_Z t) lit_0_01) = true.
Proof.
  intros [Ht0 Hle] Ht.
  destruct t as [|p|p].
  - (* t = 0 *)
    destruct t0 as [|p0|p0]; [reflexivity|lia|].
    change (of_Z (Zneg p0)) with (binary_round prec emax true p0 0).
    destruct (binary_round_integer true p0) as (m0 & -> & _); [|reflexivity].
    apply digits2_pos_below; lia.
  - (* t > 0 *)
    assert (Zpos (digits2_pos p) <= 47) as Hd by (apply digits2_pos_below; lia).
    destruct (add_lit_pos p Hd) as (m' & e' & -> & Hm' & Hcase).
    destruct t0 as [|p0|p0]; [reflexivity| |].
    + pose proof (digits2_pos_mono p0 p Hle) as Hd0.
      change (of_Z (Zpos p0)) with (binary_round prec emax false p0 0).
      destruct (binary_round_integer false p0) as (m0 & -> & Hm0 & Hm053); [lia|].
      apply lt_normal.
      destruct Hcase as [(-> & Hgt)| ->]; [|left; lia].
      destruct (Z.eq_dec (Zpos (digits2_pos p0)) (Zpos (digits2_pos p))) as [Heq|Hne];
        [|left; lia].
      right. split; [lia|]. rewrite Hm0, Heq.
      pose proof (pow2_pos (53 - Zpos (digits2_pos p)) ltac:(lia)). nia.
    + change (of_Z (Zneg p0)) with (binary_round prec emax true p0 0).
      destruct (binary_round_integer true p0) as (m0 & -> & _); [|reflexivity].
      apply digits2_pos_below; lia.
  - (* t < 0 *)
    destruct t0 as [|p0|p0]; [lia|lia|].
    assert ((p <= p0)%positive) as Hpp by lia.
    destruct (Z.eq_dec (Zpos p) (2 ^ 47)) as [H47|H47].
    + (* t = -2^47, hence t0 = t *)
      assert (p = (2 ^ 47)%positive) as -> by (apply Pos2Z.inj; rewrite H47; reflexivity).
      assert (p0 = (2 ^ 47)%positive) as ->
        by (apply Pos2Z.inj; change (Zpos (2 ^ 47)) with (2 ^ 47) in *; lia).
      reflexivity.
    + assert (Zpos (digits2_pos p) <= 47) as Hd by (apply digits2_pos_below; lia).
      destruct (add_lit_neg p Hd) as (m' & e' & -> & Hm' & Hcase).
      pose proof (digits2_pos_mono p p0 Hpp) as Hd0.
      assert (Zpos (digits2_pos p0) <= 53) as Hd53 by (apply digits2_pos_below; lia).
      change (of_Z (Zneg p0)) with (binary_round prec emax true p0 0).
      destruct (binary_round_integer true p0) as (m0 & -> & Hm0 & Hm053); [lia|].
      apply lt_normal_neg.
      destruct Hcase as [(-> & Hgt)|Hlt]; [|left; lia].
      destruct (Z.eq_dec (Zpos (digits2_pos p0)) (Zpos (digits2_pos p))) as [Heq|Hne];
        [|left; lia].
      right. split; [lia|]. rewrite Hm0, Heq.
      pose proof (pow2_pos (53 - Zpos (digits2_pos p)) ltac:(lia)). nia.
Qed.


(** ** Properties of the platform models and of the loops *)

Lemma toLowerCase_char_idem c : toLowerCase_char (toLowerCase_char c) = toLowerCase_char c.
Proof. destruct c as [[] [] [] [] [] [] [] []]; reflexivity. Qed.

Lemma toLowerCase_idem s : toLowerCase (toLowerCase s) = toLowerCase s.
Proof. induction s as [|c s IH]; simpl; [done|]. by rewrite toLowerCase_char_idem, IH. Qed.

Lemma some_true_iff {A} (f : A -> bool) l : some f l = true <-> ∃ x, x ∈ l ∧ f x = true.
Proof.
  induction l as [|a l IH]; simpl.
  - split; [done|]. intros (x & Hx & _). by apply elem_of_nil in Hx.
  - destruct (f a) eqn:Ha.
    + split; [|done]. intros _. exists a. split; [left|done].
    + rewrite IH. split.
      * intros (x & Hx & Hfx). exists x. split; [by right|done].
      * intros (x & Hx & Hfx). apply elem_of_cons in Hx as [->|Hx]; [congruence|eauto].
Qed.

Lemma some_Permutation {A} (f : A -> bool) l l' : l ≡ₚ l' -> some f l = some f l'.
Proof.
  induction 1 as [|x l l' _ IH|x y l|l l' l'' _ IH1 _ IH2]; simpl.
  - done.
  - by rewrite IH.
  - by destruct (f x), (f y).
  - congruence.
Qed.

Lemma isAllowed_spec key allowList :
  isAllowed key allowList = true <->
  Exact key ∈ allowList ∨ ∃ r, Pattern r ∈ allowList ∧ test r key = true.
Proof.
  unfold isAllowed. rewrite some_true_iff. split.
  - intros ([s|r] & Hin & Hm); simpl in Hm.
    + apply String.eqb_eq in Hm as ->. by left.
    + right. eauto.
  - intros [Hin|(r & Hin & Hm)].
    + exists (Exact key). split; [done|]. simpl. apply String.eqb_refl.
    + exists (Pattern r). done.
Qed.

Lemma filtered_search_filter allowed params :
  filtered_search allowed params = filter (λ kv, search_allowed allowed kv.1 = true) params.
Proof.
  unfold filtered_search, URLSearchParams_new.
  rewrite <- (app_nil_l (filter _ params)). generalize (@nil (string * string)) as acc.
  induction params as [|kv params IH]; intros acc; simpl.
  - by rewrite app_nil_r.
  - rewrite IH, filter_cons. unfold URLSearchParams_append.
    destruct (search_allowed allowed kv.1) eqn:E.
    + rewrite decide_True by done. rewrite <- app_assoc. by destruct kv.
    + rewrite decide_False by done. done.
Qed.

Lemma append_empty_inv a b : a +:+ b = "" -> a = "" ∧ b = "".
Proof. destruct a; simpl; [done|discriminate]. Qed.

Lemma URLSearchParams_toString_empty p : URLSearchParams_toString p = "" <-> p = [].
Proof.
  split; [|by intros ->].
  destruct p as [|kv p]; [done|]. unfold URLSearchParams_toString. simpl.
  destruct (map _ p).
  - intros H. apply append_empty_inv in H as [_ H]. simpl in H. discriminate.
  - intros H. apply append_empty_inv in H as [_ H]. simpl in H. discriminate.
Qed.

Lemma Headers_keys_lower h k : k ∈ Headers_keys h -> toLowerCase k = k.
Proof.
  unfold Headers_keys. rewrite list_elem_of_In, in_flat_map.
  intros (name & Hname & Hk).
  assert (toLowerCase name = name) as Hlow.
  { apply list_elem_of_In in Hname. unfold header_names in Hname.
    rewrite merge_sort_Permutation, elem_of_remove_dups in Hname.
    apply list_elem_of_In, in_map_iff in Hname as (nv & <- & _).
    apply toLowerCase_idem. }
  destruct (String.eqb name "set-cookie").
  - apply in_map_iff in Hk as (? & <- & _). done.
  - destruct Hk as [<-|[]]. done.
Qed.

Lemma record_headers_calls excluded pre allowList h sp :
  span_calls (record_headers excluded pre allowList h sp) =
  span_calls sp ++
  map (fun k => SetAttribute (pre +:+ toLowerCase k) (AttrArray [Headers_get h k]))
      (filter (fun k => k ≠ excluded ∧ isAllowed k allowList = true) (Headers_keys h)).
Proof.
  unfold record_headers. revert sp.
  induction (Headers_keys h) as [|k ks IH]; intros sp; simpl.
  - by rewrite app_nil_r.
  - rewrite IH, filter_cons. destruct (String.eqb_spec k excluded) as [->|Hne].
    + rewrite decide_False; [done|by intros [? _]].
    + destruct (isAllowed k allowList) eqn:E; simpl.
      * rewrite decide_True by done. simpl. by rewrite <- app_assoc.
      * rewrite decide_False; [done|intros [_ ?]; congruence].
Qed.

Lemma record_headers_name excluded pre allowList h sp :
  span_name (record_headers excluded pre allowList h sp) = span_name sp
  ∧ span_options (record_headers excluded pre allowList h sp) = span_options sp.
Proof.
  unfold record_headers. revert sp.
  induction (Headers_keys h) as [|k ks IH]; intros sp; simpl; [done|].
  rewrite !(proj1 (IH _)), !(proj2 (IH _)).
  destruct (String.eqb k excluded); [done|]. by destruct (negb _).
Qed.

Lemma append_inj_r p a b : p +:+ a = p +:+ b -> a = b.
Proof. induction p; simpl; [done|]. intros [=]. auto. Qed.

(** No call of the header loop names the excluded header. *)
Lemma record_headers_excluded excluded pre allowList h sp v :
  toLowerCase excluded = excluded ->
  SetAttribute (pre +:+ excluded) v ∈ span_calls (record_headers excluded pre allowList h sp) ->
  SetAttribute (pre +:+ excluded) v ∈ span_calls sp.
Proof.
  intros Hex. rewrite record_headers_calls, elem_of_app. intros [?|Hin]; [done|].
  exfalso. apply list_elem_of_In, in_map_iff in Hin as (k & [= Hk _] & Hin).
  apply list_elem_of_In, list_elem_of_filter in Hin as [[Hne _] Hin].
  apply append_inj_r in Hk. apply Headers_keys_lower in Hin. congruence.
Qed.

Lemma attributes_call c sp : attributes (call c sp) = apply_call (attributes sp) c.
Proof. unfold attributes, call. simpl. by rewrite fold_left_app. Qed.

Lemma attributes_setAttribute sp k v : attributes (setAttribute sp k v) = <[k := v]> (attributes sp).
Proof. apply attributes_call. Qed.

Lemma attributes_record_headers_other excluded pre allowList h sp key :
  (∀ s, key ≠ pre +:+ s) ->
  attributes (record_headers excluded pre allowList h sp) !! key = attributes sp !! key.
Proof.
  intros Hkey. unfold attributes. rewrite record_headers_calls, fold_left_app.
  generalize (fold_left apply_call (span_calls sp) ∅) as m.
  induction (filter _ _) as [|k ks IH]; intros m; simpl; [done|].
  rewrite IH. apply lookup_insert_ne. intros E. by apply (Hkey (toLowerCase k)).
Qed.

Lemma fold_apply_call_other (m : gmap string AttributeValue) cs key :
  (∀ v, SetAttribute key v ∉ cs) -> fold_left apply_call cs m !! key = m !! key.
Proof.
  revert m. induction cs as [|c cs IH]; intros m H; simpl; [done|].
  rewrite IH by (intros v Hv; apply (H v); by right).
  destruct c as [k v| |]; simpl; try done.
  apply lookup_insert_ne. intros ->. apply (H v). by left.
Qed.

Lemma attributes_not_set sp key :
  (∀ v, SetAttribute key v ∉ span_calls sp) -> attributes sp !! key = None.
Proof. intros H. unfold attributes. by rewrite fold_apply_call_other. Qed.

Ltac not_in_literal_list H :=
  repeat (apply elem_of_cons in H as [H|H]; [discriminate H|]);
  by apply elem_of_nil in H.

(** ** Properties of [sdk.ts] *)

Section Properties.

Variable URL_new : string -> option URL.
Variable RequestInit : Type.

(** *** [getSpan], unfolded on each kind of input *)

Lemma getSpan_null this now :
  getSpan URL_new this None now = Throw (TypeError in_null_message).
Proof. reflexivity. Qed.

Lemma getSpan_scheduled_eq this scheduledEvent now :
  getSpan URL_new this (Some (OfScheduledEvent scheduledEvent)) now =
  Normal (scheduled_attributes scheduledEvent
            (startSpan ("scheduled " +:+
                        match cron scheduledEvent with
                        | Some c => c
                        | None => Number_toString (scheduledTime scheduledEvent)
                        end)
               {| opt_kind := SERVER; opt_root := true; opt_startTime := Date_now now |})).
Proof. reflexivity. Qed.

Lemma getSpan_request_eq this request now u :
  URL_new (url request) = Some u ->
  getSpan URL_new this (Some (OfRequest request)) now =
  Normal (record_headers "cookie" "http.request.header." (allowedHeaders this) (headers request)
    (setAttributes
       (startSpan ("fetch " +:+ method request +:+ " " +:+ pathname u)
          {| opt_kind := INTERNAL; opt_root := true; opt_startTime := Date_now now |})
       [ (HTTP_METHOD, AttrString (method request));
         (HTTP_URL, AttrString (url request));
         (HTTP_TARGET, AttrString (pathname u +:+
            (if String.eqb (URLSearchParams_toString (filtered_search (allowedSearch this) (searchParams u))) ""
             then "" else "?" +:+ URLSearchParams_toString (filtered_search (allowedSearch this) (searchParams u)))));
         (HTTP_HOST, AttrString (host u));
         (NET_HOST_NAME, AttrString (hostname u));
         (NET_HOST_PORT, AttrString (port u));
         (HTTP_SCHEME, AttrString (substring_0 (String.length (protocol u) - 1) (protocol u)));
         (HTTP_USER_AGENT, attr_of_nullable (Headers_get (headers request) "user-agent"));
         (NET_PEER_IP, attr_of_nullable (Headers_get (headers request) "cf-connecting-ip"));
         (HTTP_CLIENT_IP, attr_of_nullable (Headers_get (headers request) "cf-connecting-ip")) ])).
Proof.
  intros Hu. unfold getSpan, request_attributes, URL_construct. simpl.
  rewrite Hu. reflexivity.
Qed.

Lemma getSpan_request_invalid_url this request now :
  URL_new (url request) = None ->
  getSpan URL_new this (Some (OfRequest request)) now = Throw (TypeError "Invalid URL").
Proof. intros Hu. unfold getSpan, URL_construct. simpl. rewrite Hu. reflexivity. Qed.

(** The guard of line 87 is never the one that fires. *)
Lemma getSpan_never_request_required this eventOrRequest now :
  getSpan URL_new this eventOrRequest now ≠ Throw (Error request_required_message).
Proof.
  destruct eventOrRequest as [[scheduledEvent|request]|].
  - by rewrite getSpan_scheduled_eq.
  - destruct (URL_new (url request)) as [u|] eqn:Hu.
    + by rewrite (getSpan_request_eq _ _ _ u).
    + by rewrite getSpan_request_invalid_url.
  - by rewrite getSpan_null.
Qed.

(** Span construction returns for every scheduled event and for every
    request whose URL parses; it throws on everything else. *)
Lemma getSpan_throws_iff this eventOrRequest now :
  throws (getSpan URL_new this eventOrRequest now) = true <->
  eventOrRequest = None ∨
  ∃ request, eventOrRequest = Some (OfRequest request) ∧ URL_new (url request) = None.
Proof.
  destruct eventOrRequest as [[scheduledEvent|request]|].
  - rewrite getSpan_scheduled_eq. simpl. split; [done|]. by intros [?|(? & ? & _)].
  - destruct (URL_new (url request)) as [u|] eqn:Hu.
    + rewrite (getSpan_request_eq _ _ _ u Hu). simpl. split; [done|].
      intros [?|(r & [= <-] & ?)]; congruence.
    + rewrite getSpan_request_invalid_url by done. simpl. split; [|done].
      intros _. right. eauto.
  - rewrite getSpan_null. simpl. split; [by left|done].
Qed.

Lemma getSpan_kind this obj now sp :
  getSpan URL_new this (Some obj) now = Normal sp ->
  opt_kind (span_options sp) = if has_type obj then SERVER else INTERNAL.
Proof.
  destruct obj as [scheduledEvent|request].
  - rewrite getSpan_scheduled_eq. intros [= <-]. unfold scheduled_attributes.
    by destruct (truthy_string _).
  - destruct (URL_new (url request)) as [u|] eqn:Hu.
    + rewrite (getSpan_request_eq _ _ _ u Hu). intros [= <-].
      by rewrite (proj2 (record_headers_name _ _ _ _ _)).
    + by rewrite getSpan_request_invalid_url.
Qed.

(** *** The controller: what the outcome operations leave behind *)

Lemma sendResponse_flushed (this : WorkerInstance) response now :
  flushed (sendResponse RequestInit this response now).1.2 = flushed this.
Proof. reflexivity. Qed.

Lemma captureException_flushed (this : WorkerInstance) ex now :
  flushed (captureException RequestInit this ex now).1 = flushed this.
Proof. reflexivity. Qed.

Lemma start_flushed this eventOrRequest now1 now2 inst :
  start URL_new this eventOrRequest now1 now2 = Normal inst -> flushed inst = false.
Proof.
  unfold start. destruct (getSpan _ _ _ _) as [sp|e]; simpl; [|done]. by intros [= <-].
Qed.

Lemma fetch_warns_iff (this : WorkerInstance) request requestInitr :
  ConsoleWarn fetch_after_flush_message ∈ fetch RequestInit this request requestInitr
  <-> flushed this = true.
Proof.
  unfold fetch. destruct (flushed this); simpl.
  - split; [done|]. intros _. left.
  - split; [|done]. intros H. apply list_elem_of_singleton in H. discriminate.
Qed.

Lemma fetch_performs_call (this : WorkerInstance) request requestInitr :
  GlobalFetch request requestInitr ∈ fetch RequestInit this request requestInitr.
Proof. unfold fetch. apply elem_of_app. right. left. Qed.

(** *** Attributes of the root span *)

Lemma scheduled_attributes_name scheduledEvent sp :
  span_name (scheduled_attributes scheduledEvent sp) = span_name sp.
Proof. unfold scheduled_attributes. by destruct (truthy_string _). Qed.

Lemma scheduled_attributes_calls scheduledEvent name options :
  span_calls (scheduled_attributes scheduledEvent (startSpan name options)) =
  [SetAttribute FAAS_TRIGGER (AttrString "timer");
   SetAttribute FAAS_TIME (AttrNumber (scheduledTime scheduledEvent))]
  ++ match cron scheduledEvent with
     | Some c => if String.eqb c "" then [] else [SetAttribute FAAS_CRON (AttrString c)]
     | None => []
     end.
Proof.
  unfold scheduled_attributes. destruct (cron scheduledEvent) as [c|]; simpl; [|done].
  by destruct (String.eqb c "").
Qed.

(** C3. Whatever the header allow-list is, span construction never sets
    the attribute of the request header [cookie], and [sendResponse] never
    sets the attribute of the response header [set-cookie]: the span has no
    such call after span construction, and has after [sendResponse] only
    the ones it had before. *)
Theorem cookie_headers_never_recorded this eventOrRequest now sp
    (inst : WorkerInstance) response now' :
  getSpan URL_new this eventOrRequest now = Normal sp ->
  ((∀ v, SetAttribute "http.request.header.cookie" v ∉ span_calls sp)
   ∧ attributes sp !! "http.request.header.cookie" = None)
  ∧
  let inst' := (sendResponse RequestInit inst response now').1.2 in
  ((∀ v, SetAttribute "http.response.header.set-cookie" v ∈ span_calls (span inst') ->
         SetAttribute "http.response.header.set-cookie" v ∈ span_calls (span inst))
   ∧ attributes (span inst') !! "http.response.header.set-cookie"
     = attributes (span inst) !! "http.response.header.set-cookie").
Proof.
  intros Hsp. split.
  - assert (∀ v, SetAttribute "http.request.header.cookie" v ∉ span_calls sp) as Hno.
    { intros v Hin. destruct eventOrRequest as [[scheduledEvent|request]|].
      - rewrite getSpan_scheduled_eq in Hsp. injection Hsp as <-.
        rewrite scheduled_attributes_calls in Hin.
        apply elem_of_app in Hin as [Hin|Hin]; [not_in_literal_list Hin|].
        destruct (cron scheduledEvent) as [c|]; [destruct (String.eqb c "")|];
          not_in_literal_list Hin.
      - destruct (URL_new (url request)) as [u|] eqn:Hu.
        + rewrite (getSpan_request_eq _ _ _ u Hu) in Hsp. injection Hsp as <-.
          apply (record_headers_excluded "cookie" "http.request.header.") in Hin; [|done].
          simpl in Hin. not_in_literal_list Hin.
        + by rewrite getSpan_request_invalid_url in Hsp.
      - by rewrite getSpan_null in Hsp. }
    split; [done|]. by apply attributes_not_set.
  - simpl.
    assert (∀ v, SetAttribute "http.response.header.set-cookie" v ∈
                   span_calls (record_headers "set-cookie" "http.response.header."
                     (allowedHeaders (sdk inst)) (response_headers response)
                     (setAttributes (span inst) [(HTTP_STATUS_CODE, AttrNumber (status response))])) ++
                   [End (nudged_end inst now')] ->
                 SetAttribute "http.response.header.set-cookie" v ∈ span_calls (span inst)) as Hno.
    { intros v Hin. apply elem_of_app in Hin as [Hin|Hin]; [|not_in_literal_list Hin].
      apply (record_headers_excluded "set-cookie" "http.response.header.") in Hin; [|done].
      simpl in Hin. apply elem_of_app in Hin as [Hin|Hin]; [done|not_in_literal_list Hin]. }
    split; [done|].
    unfold attributes. simpl. rewrite fold_left_app. simpl.
    rewrite record_headers_calls. simpl. rewrite !fold_left_app. simpl.
    rewrite fold_apply_call_other.
    + by apply lookup_insert_ne.
    + intros v Hin. apply list_elem_of_In, in_map_iff in Hin as (k & [= Hk _] & Hin).
      apply list_elem_of_In, list_elem_of_filter in Hin as [[Hne _] Hin].
      change (toLowerCase k = "set-cookie") in Hk.
      apply Headers_keys_lower in Hin. congruence.
Qed.

(** C7 (as amended). For every scheduled trigger the span name is
    ["scheduled "] followed by the cron expression when the [cron] field is
    present and by the scheduled time otherwise; the span carries
    [faas.trigger = "timer"] and [faas.time = scheduledTime] always, and
    [faas.cron = cron] exactly when the [cron] field is present and is not
    the empty string. *)
Theorem scheduled_span_name_and_attributes this scheduledEvent now :
  ∃ sp, getSpan URL_new this (Some (OfScheduledEvent scheduledEvent)) now = Normal sp ∧
    span_name sp = "scheduled " +:+
                   match cron scheduledEvent with
                   | Some c => c
                   | None => Number_toString (scheduledTime scheduledEvent)
                   end ∧
    attributes sp !! FAAS_TRIGGER = Some (AttrString "timer") ∧
    attributes sp !! FAAS_TIME = Some (AttrNumber (scheduledTime scheduledEvent)) ∧
    attributes sp !! FAAS_CRON =
      match cron scheduledEvent with
      | Some c => if String.eqb c "" then None else Some (AttrString c)
      | None => None
      end.
Proof.
  eexists. split; [apply getSpan_scheduled_eq|].
  rewrite scheduled_attributes_name. split; [done|].
  unfold attributes. rewrite scheduled_attributes_calls.
  destruct (cron scheduledEvent) as [c|]; [destruct (String.eqb c "")|];
    simpl; unfold FAAS_TRIGGER, FAAS_TIME, FAAS_CRON; by simplify_map_eq.
Qed.

(** C10. For a scheduled trigger whose [cron] field is present and is the
    empty string, the span is named ["scheduled "] (the empty cron is
    used, not the scheduled time) and no [faas.cron] attribute is set. *)
Theorem empty_cron_named_but_not_recorded this scheduledEvent now :
  cron scheduledEvent = Some "" ->
  ∃ sp, getSpan URL_new this (Some (OfScheduledEvent scheduledEvent)) now = Normal sp ∧
    span_name sp = "scheduled " ∧
    (∀ v, SetAttribute FAAS_CRON v ∉ span_calls sp) ∧
    attributes sp !! FAAS_CRON = None.
Proof.
  intros Hcron. eexists. split; [apply getSpan_scheduled_eq|].
  rewrite scheduled_attributes_name. simpl. rewrite Hcron. split; [done|].
  assert (∀ v, SetAttribute FAAS_CRON v ∉
                 span_calls (scheduled_attributes scheduledEvent
                   (startSpan "scheduled " {| opt_kind := SERVER; opt_root := true;
                                              opt_startTime := Date_now now |}))) as Hno.
  { intros v Hin. rewrite scheduled_attributes_calls, Hcron in Hin. simpl in Hin.
    not_in_literal_list Hin. }
  split; [done|]. by apply attributes_not_set.
Qed.

(** C9. [sendResponse] returns the response it was given: the returned
    value is the argument, with the same status and the same headers. *)
Theorem sendResponse_returns_its_argument (this : WorkerInstance) response now :
  (sendResponse RequestInit this response now).1.1 = response
  ∧ status (sendResponse RequestInit this response now).1.1 = status response
  ∧ response_headers (sendResponse RequestInit this response now).1.1 = response_headers response.
Proof. done. Qed.

(** *** The end time *)

Lemma getSpan_startTime this eventOrRequest now sp :
  getSpan URL_new this eventOrRequest now = Normal sp ->
  opt_startTime (span_options sp) = Date_now now.
Proof.
  destruct eventOrRequest as [[scheduledEvent|request]|].
  - rewrite getSpan_scheduled_eq. intros [= <-]. unfold scheduled_attributes.
    by destruct (truthy_string _).
  - destruct (URL_new (url request)) as [u|] eqn:Hu.
    + rewrite (getSpan_request_eq _ _ _ u Hu). intros [= <-].
      by rewrite (proj2 (record_headers_name _ _ _ _ _)).
    + by rewrite getSpan_request_invalid_url.
  - by rewrite getSpan_null.
Qed.

Lemma sendResponse_last_call (this : WorkerInstance) response now :
  last (span_calls (span (sendResponse RequestInit this response now).1.2))
  = Some (End (nudged_end this now)).
Proof. simpl. apply last_snoc. Qed.

Lemma captureException_last_call (this : WorkerInstance) ex now :
  last (span_calls (span (captureException RequestInit this ex now).1))
  = Some (End (nudged_end this now)).
Proof. simpl. apply last_snoc. Qed.

(** The span of an invocation that starts and ends on the same clock
    reading is ended with a number strictly greater than the start time
    it was opened with, as long as the clock did not go backwards between
    the two reads of [start]. *)
Lemma started_span_ends_after_its_start this eventOrRequest now1 now2 inst response :
  start URL_new this eventOrRequest now1 now2 = Normal inst ->
  - 2 ^ 47 <= now1 <= now2 -> now2 < 2 ^ 47 ->
  ∃ e, last (span_calls (span (sendResponse RequestInit inst response now2).1.2)) = Some (End e)
       ∧ num_lt (opt_startTime (span_options (span inst))) e = true.
Proof.
  unfold start. destruct (getSpan _ _ _ _) as [sp|err] eqn:Hsp; intros Hinst; [|done].
  injection Hinst as <-. intros Hrange Hlt.
  rewrite sendResponse_last_call. eexists. split; [done|].
  cbn [span new_WorkerInstance]. rewrite (getSpan_startTime _ _ _ _ Hsp).
  unfold nudged_end. cbn [startTime new_WorkerInstance].
  assert (strict_eq (Date_now now2) (Date_now now2) = true) as ->.
  { unfold strict_eq, SFeqb, Date_now, of_Z.
    destruct now2 as [|p|p]; [reflexivity| |].
    - change (binary_normalize prec emax (Zpos p) 0 false) with (binary_round prec emax false p 0).
      destruct (binary_round_integer false p) as (m & -> & _).
      + apply digits2_pos_below; lia.
      + simpl. by rewrite Z.compare_refl, Pos.compare_cont_refl.
    - change (binary_normalize prec emax (Zneg p) 0 false) with (binary_round prec emax true p 0).
      destruct (binary_round_integer true p) as (m & -> & _).
      + apply digits2_pos_below; lia.
      + simpl. by rewrite Z.compare_refl, Pos.compare_cont_refl. }
  apply add_lit_later; lia.
Qed.


End Properties.


(** ** The scenarios, run *)

Example scenario_request :
  ∃ sp, getSpan Sample.URL_new Sample.sdk_x (Some (OfRequest Sample.request)) 5 = Normal sp ∧
    span_name sp = "fetch GET /a/b" ∧
    attributes sp !! "http.target" = Some (AttrString "/a/b?x=1") ∧
    attributes sp !! "http.request.header.user-agent" = Some (AttrArray [Some "UA1"]) ∧
    attributes sp !! "http.request.header.cookie" = None.
Proof. eexists. split; [vm_compute; reflexivity|]. by vm_compute. Qed.

Example scenario_scheduled :
  ∃ sp, getSpan Sample.URL_new new_WorkersSDK (Some (OfScheduledEvent Sample.scheduled)) 5 = Normal sp ∧
    span_name sp = "scheduled 0 * * * *" ∧
    attributes sp !! "faas.trigger" = Some (AttrString "timer") ∧
    attributes sp !! "faas.time" = Some (AttrNumber 1700000000000) ∧
    attributes sp !! "faas.cron" = Some (AttrString "0 * * * *").
Proof. eexists. split; [vm_compute; reflexivity|]. by vm_compute. Qed.

Example scenario_scheduled_no_cron :
  ∃ sp, getSpan Sample.URL_new new_WorkersSDK (Some (OfScheduledEvent Sample.scheduled_no_cron)) 5 = Normal sp ∧
    span_name sp = "scheduled 1700000000000".
Proof. eexists. split; [vm_compute; reflexivity|]. by vm_compute. Qed.

Example scenario_response_500 :
  ∃ inst, start Sample.URL_new new_WorkersSDK (Some (OfRequest Sample.request)) 5 5 = Normal inst ∧
    let '(_, inst', effects) := sendResponse unit inst Sample.response_500 9 in
    attributes (span inst') !! "http.status_code" = Some (AttrNumber 500) ∧
    attributes (span inst') !! "http.response.header.set-cookie" = None ∧
    attributes (span inst') !! "http.response.header.cf-ray" = Some (AttrArray [Some "r1"]) ∧
    effects = [ForceFlush; WaitUntil].
Proof. eexists. split; [vm_compute; reflexivity|]. by vm_compute. Qed.

(** C1. The code opens the root span of a request with kind [INTERNAL]
    and the root span of a scheduled event with kind [SERVER]: the two
    branches of the conditional at line 97 are the other way round. *)
Theorem span_kinds_are_swapped :
  (∃ sp, getSpan Sample.URL_new new_WorkersSDK (Some (OfRequest Sample.request)) 0 = Normal sp
         ∧ opt_kind (span_options sp) = INTERNAL)
  ∧ (∃ sp, getSpan Sample.URL_new new_WorkersSDK (Some (OfScheduledEvent Sample.scheduled)) 0 = Normal sp
           ∧ opt_kind (span_options sp) = SERVER).
Proof. split; (eexists; split; [vm_compute; reflexivity|reflexivity]). Qed.

(** C6. Given [null] for the request, span construction throws the
    [TypeError] of the [in] operator at line 83; the error of line 88 is
    not the one thrown. *)
Theorem null_request_throws_type_error :
  getSpan Sample.URL_new new_WorkersSDK None 0 = Throw (TypeError in_null_message)
  ∧ getSpan Sample.URL_new new_WorkersSDK None 0 ≠ Throw (Error request_required_message).
Proof. split; [reflexivity|discriminate]. Qed.

(** C4. After [sendResponse], and after [captureException], the
    [flushed] field is still [false], and a later [fetch] performs the
    network call without any warning. *)
Theorem flushed_is_never_set :
  ∃ inst, start Sample.URL_new new_WorkersSDK (Some (OfRequest Sample.request)) 0 0 = Normal inst ∧
    let after_response := (sendResponse unit inst Sample.response_500 1).1.2 in
    let after_exception := (captureException unit inst (Error "boom") 1).1 in
    flushed after_response = false ∧
    flushed after_exception = false ∧
    fetch unit after_response (inr "https://svc.example/sub") None
      = [GlobalFetch (inr "https://svc.example/sub") None] ∧
    fetch unit after_exception (inr "https://svc.example/sub") None
      = [GlobalFetch (inr "https://svc.example/sub") None].
Proof. eexists. split; [vm_compute; reflexivity|]. by vm_compute. Qed.

(** C7 as stated fails on an empty cron expression: the [cron] field is
    present, the name uses it, and yet no [faas.cron] attribute is set. *)
Lemma empty_cron_has_no_cron_attribute :
  ¬ ∃ sp, getSpan Sample.URL_new new_WorkersSDK
            (Some (OfScheduledEvent Sample.scheduled_empty_cron)) 0 = Normal sp ∧
      span_name sp = "scheduled " +:+ "" ∧
      attributes sp !! FAAS_TRIGGER = Some (AttrString "timer") ∧
      attributes sp !! FAAS_TIME = Some (AttrNumber 1700000000000) ∧
      attributes sp !! FAAS_CRON = Some (AttrString "").
Proof.
  intros (sp & Hsp & _ & _ & _ & Hcron).
  rewrite getSpan_scheduled_eq in Hsp. injection Hsp as <-.
  vm_compute in Hcron. discriminate Hcron.
Qed.

Lemma cookie_headers_never_recorded_witness :
  ∃ sp inst,
    getSpan Sample.URL_new Sample.sdk_x (Some (OfRequest Sample.request)) 5 = Normal sp
    ∧ start Sample.URL_new Sample.sdk_x (Some (OfRequest Sample.request)) 5 5 = Normal inst
    ∧ attributes sp !! "http.request.header.cookie" = None
    ∧ attributes (span (sendResponse unit inst Sample.response_500 9).1.2)
        !! "http.response.header.set-cookie"
      = attributes (span inst) !! "http.response.header.set-cookie".
Proof.
  assert (∃ sp, getSpan Sample.URL_new Sample.sdk_x (Some (OfRequest Sample.request)) 5
                = Normal sp) as [sp Hsp] by (eexists; vm_compute; reflexivity).
  exists sp, (new_WorkerInstance Sample.sdk_x sp 5).
  split; [exact Hsp|]. split; [unfold start; rewrite Hsp; reflexivity|].
  pose proof (cookie_headers_never_recorded Sample.URL_new unit Sample.sdk_x
                (Some (OfRequest Sample.request)) 5 sp (new_WorkerInstance Sample.sdk_x sp 5)
                Sample.response_500 9 Hsp) as H.
  split; [exact (proj2 (proj1 H))|exact (proj2 (proj2 H))].
Defined.

Lemma empty_cron_named_but_not_recorded_witness :
  cron Sample.scheduled_empty_cron = Some ""
  ∧ ∃ sp, getSpan Sample.URL_new new_WorkersSDK
            (Some (OfScheduledEvent Sample.scheduled_empty_cron)) 0 = Normal sp
          ∧ span_name sp = "scheduled "
          ∧ (∀ v, SetAttribute FAAS_CRON v ∉ span_calls sp)
          ∧ attributes sp !! FAAS_CRON = None.
Proof.
  split; [reflexivity|].
  exact (empty_cron_named_but_not_recorded Sample.URL_new new_WorkersSDK
           Sample.scheduled_empty_cron 0 eq_refl).
Defined.



(** * More of [sdk.ts] *)

(** ** More on the platform models *)

Lemma elem_of_Headers_keys h k :
  k ∈ Headers_keys h <-> ∃ nv, nv ∈ header_list h ∧ toLowerCase nv.1 = k.
Proof.
  assert (∀ name, name ∈ header_names h <-> ∃ nv, nv ∈ header_list h ∧ toLowerCase nv.1 = name)
    as Hnames.
  { intros name. unfold header_names.
    rewrite merge_sort_Permutation, elem_of_remove_dups, list_elem_of_In, in_map_iff.
    split; intros (nv & H1 & H2).
    - exists nv. by rewrite list_elem_of_In.
    - exists nv. by rewrite <- list_elem_of_In. }
  unfold Headers_keys. rewrite list_elem_of_In, in_flat_map. split.
  - intros (name & Hname & Hk). apply list_elem_of_In, Hnames in Hname.
    destruct (String.eqb name "set-cookie").
    + apply in_map_iff in Hk as (? & <- & _). done.
    + destruct Hk as [<-|[]]. done.
  - intros (nv & Hin & Hk). exists k. split.
    + apply list_elem_of_In, Hnames. eauto.
    + destruct (String.eqb k "set-cookie"); [|by left].
      apply in_map_iff. exists nv.2. split; [done|].
      unfold header_values. apply in_map_iff. exists nv. split; [done|].
      apply list_elem_of_In, list_elem_of_filter. done.
Qed.

Lemma Headers_keys_names h k :
  k ∈ Headers_keys h <-> k ∈ map (fun nv => toLowerCase nv.1) (header_list h).
Proof.
  rewrite elem_of_Headers_keys, list_elem_of_In, in_map_iff. split.
  - intros (nv & Hin & Hk). exists nv. by rewrite <- list_elem_of_In.
  - intros (nv & Hk & Hin). exists nv. by rewrite list_elem_of_In.
Qed.

(** [get] on a name that [keys] yields is never [null]. *)
Lemma Headers_get_key h k :
  k ∈ Headers_keys h ->
  header_values h k ≠ [] ∧ Headers_get h k = Some (join ", " (header_values h k)).
Proof.
  intros Hk. pose proof (Headers_keys_lower h k Hk) as Hlow.
  apply elem_of_Headers_keys in Hk as (nv & Hin & Hnv).
  assert (header_values h k ≠ []) as Hne.
  { unfold header_values. intros Hnil. apply map_eq_nil in Hnil.
    assert (nv ∈ filter (λ nv, toLowerCase nv.1 = k) (header_list h)) as H
      by (by apply list_elem_of_filter).
    rewrite Hnil in H. by apply elem_of_nil in H. }
  split; [done|]. unfold Headers_get. rewrite Hlow. by destruct (header_values h k).
Qed.

(** ** More on Numbers *)

(** Whole numbers below [2^53] in magnitude keep their order as Numbers. *)
Lemma of_Z_lt a b :
  - 2 ^ 53 < a -> a < b -> b < 2 ^ 53 -> num_lt (of_Z a) (of_Z b) = true.
Proof.
  intros Ha Hab Hb.
  assert (∀ p, Zpos p < 2 ^ 53 -> ∀ sx,
            ∃ m, binary_round prec emax sx p 0 = S754_finite sx m (Zpos (digits2_pos p) - 53)
                 ∧ Zpos m = Zpos p * 2 ^ (53 - Zpos (digits2_pos p))) as Hint.
  { intros p Hp sx. destruct (binary_round_integer sx p) as (m & ? & ? & _); [|eauto].
    apply digits2_pos_below; lia. }
  destruct a as [|pa|pa], b as [|pb|pb]; try lia.
  - change (of_Z (Zpos pb)) with (binary_round prec emax false pb 0).
    destruct (Hint pb ltac:(lia) false) as (m & -> & _). reflexivity.
  - change (of_Z (Zpos pa)) with (binary_round prec emax false pa 0).
    change (of_Z (Zpos pb)) with (binary_round prec emax false pb 0).
    destruct (Hint pa ltac:(lia) false) as (ma & -> & Hma).
    destruct (Hint pb ltac:(lia) false) as (mb & -> & Hmb).
    pose proof (digits2_pos_mono pa pb ltac:(lia)) as Hd.
    apply lt_normal.
    destruct (Z.eq_dec (Zpos (digits2_pos pa)) (Zpos (digits2_pos pb))) as [Heq|Hne];
      [|left; lia].
    right. split; [lia|]. rewrite Hma, Hmb, Heq.
    pose proof (digits2_pos_below pb 53 ltac:(lia) ltac:(lia)).
    pose proof (pow2_pos (53 - Zpos (digits2_pos pb)) ltac:(lia)). nia.
  - change (of_Z (Zneg pa)) with (binary_round prec emax true pa 0).
    destruct (Hint pa ltac:(lia) true) as (m & -> & _). reflexivity.
  - change (of_Z (Zneg pa)) with (binary_round prec emax true pa 0).
    change (of_Z (Zpos pb)) with (binary_round prec emax false pb 0).
    destruct (Hint pa ltac:(lia) true) as (ma & -> & _).
    destruct (Hint pb ltac:(lia) false) as (mb & -> & _). reflexivity.
  - change (of_Z (Zneg pa)) with (binary_round prec emax true pa 0).
    change (of_Z (Zneg pb)) with (binary_round prec emax true pb 0).
    destruct (Hint pa ltac:(lia) true) as (ma & -> & Hma).
    destruct (Hint pb ltac:(lia) true) as (mb & -> & Hmb).
    pose proof (digits2_pos_mono pb pa ltac:(lia)) as Hd.
    apply lt_normal_neg.
    destruct (Z.eq_dec (Zpos (digits2_pos pa)) (Zpos (digits2_pos pb))) as [Heq|Hne];
      [|left; lia].
    right. split; [lia|]. rewrite Hma, Hmb, Heq.
    pose proof (digits2_pos_below pb 53 ltac:(lia) ltac:(lia)).
    pose proof (pow2_pos (53 - Zpos (digits2_pos pb)) ltac:(lia)). nia.
Qed.

Lemma strict_eq_sym x y : strict_eq x y = strict_eq y x.
Proof.
  unfold strict_eq, SFeqb.
  destruct x as [sx|sx| |sx mx ex], y as [sy|sy| |sy my ey]; simpl; try done;
    try (by destruct sx); try (by destruct sy); try (by destruct sx, sy).
  rewrite (Z.compare_antisym ey ex), !Pos.compare_cont_spec, (Pos.compare_antisym my mx).
  destruct sx, sy; try done;
    destruct (ey ?= ex); simpl; try done; destruct (my ?= mx)%positive; done.
Qed.

Lemma num_lt_not_strict_eq x y : num_lt x y = true -> strict_eq x y = false.
Proof. unfold num_lt, strict_eq, SFltb, SFeqb. by destruct (SFcompare x y) as [[]|]. Qed.

(** Distinct whole numbers below [2^53] in magnitude are not [===]. *)
Lemma of_Z_strict_eq a b :
  - 2 ^ 53 < a < 2 ^ 53 -> - 2 ^ 53 < b < 2 ^ 53 ->
  strict_eq (of_Z a) (of_Z b) = bool_decide (a = b).
Proof.
  intros Ha Hb. case_bool_decide as Hab.
  - subst b. destruct (Z.lt_trichotomy (a - 1) a) as [Hlt|[?|?]]; try lia.
    unfold strict_eq, SFeqb.
    destruct a as [|p|p]; [reflexivity| |].
    + change (of_Z (Zpos p)) with (binary_round prec emax false p 0).
      destruct (binary_round_integer false p) as (m & -> & _).
      * apply digits2_pos_below; lia.
      * simpl. by rewrite Z.compare_refl, Pos.compare_cont_refl.
    + change (of_Z (Zneg p)) with (binary_round prec emax true p 0).
      destruct (binary_round_integer true p) as (m & -> & _).
      * apply digits2_pos_below; lia.
      * simpl. by rewrite Z.compare_refl, Pos.compare_cont_refl.
  - destruct (Z.lt_trichotomy a b) as [Hlt|[?|Hgt]]; [|done|].
    + apply num_lt_not_strict_eq, of_Z_lt; lia.
    + rewrite strict_eq_sym. apply num_lt_not_strict_eq, of_Z_lt; lia.
Qed.

Lemma num_lt_asym x y : num_lt x y = true -> num_lt y x = false.
Proof.
  unfold num_lt, SFltb.
  destruct x as [sx|sx| |sx mx ex], y as [sy|sy| |sy my ey]; simpl; try done;
    try (by destruct sx); try (by destruct sy); try (by destruct sx, sy).
  rewrite (Z.compare_antisym ex ey), !Pos.compare_cont_spec, (Pos.compare_antisym mx my).
  destruct sx, sy; try done;
    destruct (ex ?= ey); simpl; try done; destruct (mx ?= my)%positive; done.
Qed.


Lemma some_app {A} (f : A -> bool) l1 l2 : some f (l1 ++ l2) = some f l1 || some f l2.
Proof. induction l1 as [|a l1 IH]; simpl; [done|]. by destruct (f a). Qed.

(** The allow-list matters to a header loop only through the names the
    headers have. *)
Lemma record_headers_ext excluded pre al al' h sp :
  (∀ k, k ∈ Headers_keys h -> isAllowed k al = isAllowed k al') ->
  record_headers excluded pre al h sp = record_headers excluded pre al' h sp.
Proof.
  unfold record_headers. revert sp.
  induction (Headers_keys h) as [|k ks IH]; intros sp Hext; simpl; [done|].
  rewrite (Hext k) by left. apply IH. intros k' Hk'. apply Hext. by right.
Qed.

Lemma substring_0_prefix s t : substring_0 (String.length s) (s +:+ t) = s.
Proof.
  unfold substring_0. induction s as [|c s IH]; simpl.
  - by destruct t.
  - by rewrite IH.
Qed.

Lemma length_append_colon s : (String.length (s +:+ ":") - 1)%nat = String.length s.
Proof. induction s as [|c s IH]; simpl; [done|]. simpl in IH. destruct (s +:+ ":") eqn:E.
  - by destruct s.
  - simpl in *. lia.
Qed.

Lemma only_attributes_end_calls sp :
  only_attributes (span_calls sp) ->
  end_calls sp = [] ∧ ∀ ex, RecordException ex ∉ span_calls sp.
Proof.
  unfold end_calls, only_attributes. induction (span_calls sp) as [|c cs IH]; intros H.
  - split; [done|]. intros ex. apply not_elem_of_nil.
  - apply Forall_cons in H as [(k & v & ->) H]. destruct (IH H) as [IH1 IH2].
    split; [done|]. intros ex [E|E]%elem_of_cons; [done|by apply (IH2 ex)].
Qed.

Lemma end_calls_call c sp :
  end_calls (call c sp) = end_calls sp ++ match c with End t => [t] | _ => [] end.
Proof. unfold end_calls, call. simpl. rewrite omap_app. by destruct c. Qed.

Lemma end_calls_record_headers excluded pre al h sp :
  end_calls (record_headers excluded pre al h sp) = end_calls sp.
Proof.
  unfold end_calls. rewrite record_headers_calls, omap_app.
  induction (filter _ _) as [|k ks IH]; simpl; [by rewrite app_nil_r|done].
Qed.

(** ** More properties of [sdk.ts] *)

Ltac unfold_keys :=
  cbv [HTTP_METHOD HTTP_URL HTTP_TARGET HTTP_HOST NET_HOST_NAME NET_HOST_PORT
       HTTP_SCHEME HTTP_USER_AGENT NET_PEER_IP HTTP_CLIENT_IP HTTP_STATUS_CODE
       FAAS_TRIGGER FAAS_TIME FAAS_CRON] in *.

Ltac not_a_header_key := intros ?; unfold_keys; simpl; discriminate.

Section MoreProperties.

Variable URL_new : string -> option URL.
Variable RequestInit : Type.

(** The calls a request span is built from: the ten of [setAttributes],
    then one per admitted header. *)
Lemma request_span_calls this request now u sp :
  URL_new (url request) = Some u ->
  getSpan URL_new this (Some (OfRequest request)) now = Normal sp ->
  ∃ values,
    map fst values = request_keys ∧
    span_calls sp =
      map (fun kv => SetAttribute kv.1 kv.2) values ++
      map (fun k => SetAttribute ("http.request.header." +:+ toLowerCase k)
                      (AttrArray [Headers_get (headers request) k]))
          (filter (fun k => k ≠ "cookie" ∧ isAllowed k (allowedHeaders this) = true)
                  (Headers_keys (headers request))).
Proof.
  intros Hu. rewrite (getSpan_request_eq URL_new _ _ _ u Hu). intros [= <-].
  eexists [(_, _); (_, _); (_, _); (_, _); (_, _); (_, _); (_, _); (_, _); (_, _); (_, _)].
  split; [|rewrite record_headers_calls; reflexivity]. reflexivity.
Qed.

Lemma getSpan_only_attributes this eventOrRequest now sp :
  getSpan URL_new this eventOrRequest now = Normal sp -> only_attributes (span_calls sp).
Proof.
  destruct eventOrRequest as [[scheduledEvent|request]|].
  - rewrite getSpan_scheduled_eq. intros [= <-]. rewrite scheduled_attributes_calls.
    apply Forall_app. split; [repeat constructor; eauto|].
    destruct (cron scheduledEvent) as [c|]; [destruct (String.eqb c "")|];
      repeat constructor; eauto.
  - destruct (URL_new (url request)) as [u|] eqn:Hu.
    + intros Hsp. destruct (request_span_calls _ _ _ _ _ Hu Hsp) as (values & _ & ->).
      apply Forall_app. split; apply Forall_forall; intros c Hc;
        apply list_elem_of_In, in_map_iff in Hc as (x & <- & _); eauto.
    + by rewrite getSpan_request_invalid_url.
  - by rewrite getSpan_null.
Qed.

(** X1. [start] returns an instance for every scheduled event and for
    every request whose URL parses, and throws a [TypeError] on anything
    else. The instance it returns belongs to the SDK, is not flushed, has
    the second clock reading as its start time, and holds a root span
    opened at the first clock reading that has neither been ended nor been
    given an exception. *)
Theorem start_outcome this eventOrRequest now1 now2 :
  match start URL_new this eventOrRequest now1 now2 with
  | Throw e =>
      (eventOrRequest = None ∧ e = TypeError in_null_message)
      ∨ (∃ request, eventOrRequest = Some (OfRequest request)
                    ∧ URL_new (url request) = None ∧ e = TypeError "Invalid URL")
  | Normal inst =>
      ((∃ scheduledEvent, eventOrRequest = Some (OfScheduledEvent scheduledEvent))
       ∨ (∃ request, eventOrRequest = Some (OfRequest request)
                     ∧ is_Some (URL_new (url request))))
      ∧ sdk inst = this ∧ flushed inst = false ∧ startTime inst = Date_now now2
      ∧ opt_root (span_options (span inst)) = true
      ∧ opt_startTime (span_options (span inst)) = Date_now now1
      ∧ end_calls (span inst) = []
      ∧ ∀ ex, RecordException ex ∉ span_calls (span inst)
  end.
Proof.
  unfold start.
  destruct (getSpan URL_new this eventOrRequest now1) as [sp|e] eqn:Hsp; simpl.
  - pose proof (getSpan_only_attributes _ _ _ _ Hsp) as Hattr.
    apply only_attributes_end_calls in Hattr as [Hends Hexc].
    pose proof (getSpan_startTime URL_new _ _ _ _ Hsp) as Hstart.
    split; [|repeat split; try done].
    + destruct eventOrRequest as [[scheduledEvent|request]|].
      * left. eauto.
      * right. exists request. split; [done|].
        destruct (URL_new (url request)) eqn:Hu; [done|].
        by rewrite getSpan_request_invalid_url in Hsp.
      * by rewrite getSpan_null in Hsp.
    + destruct eventOrRequest as [[scheduledEvent|request]|].
      * rewrite getSpan_scheduled_eq in Hsp. injection Hsp as <-.
        unfold scheduled_attributes. by destruct (truthy_string _).
      * destruct (URL_new (url request)) as [u|] eqn:Hu.
        -- rewrite (getSpan_request_eq URL_new _ _ _ u Hu) in Hsp. injection Hsp as <-.
           by rewrite (proj2 (record_headers_name _ _ _ _ _)).
        -- by rewrite getSpan_request_invalid_url in Hsp.
      * by rewrite getSpan_null in Hsp.
  - destruct eventOrRequest as [[scheduledEvent|request]|].
    + by rewrite getSpan_scheduled_eq in Hsp.
    + right. exists request. split; [done|].
      destruct (URL_new (url request)) as [u|] eqn:Hu.
      * by rewrite (getSpan_request_eq URL_new _ _ _ u Hu) in Hsp.
      * rewrite getSpan_request_invalid_url in Hsp by done. by injection Hsp as <-.
    + left. rewrite getSpan_null in Hsp. by injection Hsp as <-.
Qed.

(** X3. When the protocol of the parsed URL ends in a colon, as that of
    every URL does, [http.scheme] is the protocol without the colon. *)
Theorem http_scheme_drops_the_colon this request now u scheme :
  URL_new (url request) = Some u ->
  protocol u = scheme +:+ ":" ->
  ∃ sp, getSpan URL_new this (Some (OfRequest request)) now = Normal sp ∧
    attributes sp !! HTTP_SCHEME = Some (AttrString scheme).
Proof.
  intros Hu Hp. eexists. split; [by apply getSpan_request_eq|].
  rewrite attributes_record_headers_other by not_a_header_key.
  rewrite Hp, length_append_colon, substring_0_prefix.
  unfold attributes. simpl. unfold_keys.
  by simplify_map_eq.
Qed.


(** X6. Header names are matched in lower case against the allow-list as
    it is written: an exact entry that contains an upper-case letter admits
    no header, neither in span construction nor in [sendResponse]. Removing
    it from the allow-list changes nothing. *)
Theorem capitalised_entries_admit_nothing this entry l1 l2 eventOrRequest now
    (inst : WorkerInstance) response now' :
  toLowerCase entry ≠ entry ->
  allowedHeaders this = l1 ++ Exact entry :: l2 ->
  sdk inst = this ->
  let this' := {| allowedHeaders := l1 ++ l2; allowedSearch := allowedSearch this |} in
  let inst' := {| sdk := this'; span := span inst; flushed := flushed inst;
                  startTime := startTime inst |} in
  getSpan URL_new this eventOrRequest now = getSpan URL_new this' eventOrRequest now
  ∧ span (sendResponse RequestInit inst response now').1.2
    = span (sendResponse RequestInit inst' response now').1.2.
Proof.
  intros Hcap Hal Hsdk this' inst'.
  assert (∀ h k, k ∈ Headers_keys h ->
            isAllowed k (allowedHeaders this) = isAllowed k (l1 ++ l2)) as Hsame.
  { intros h k Hk. rewrite Hal. unfold isAllowed. rewrite !some_app. simpl.
    destruct (String.eqb_spec entry k) as [->|Hne]; [|done].
    by apply Headers_keys_lower in Hk. }
  split.
  - destruct eventOrRequest as [[scheduledEvent|request]|]; [done| |done].
    destruct (URL_new (url request)) as [u|] eqn:Hu.
    + rewrite !(getSpan_request_eq URL_new _ _ _ u Hu). f_equal.
      apply record_headers_ext. intros k Hk. by apply (Hsame (headers request)).
    + by rewrite !getSpan_request_invalid_url.
  - simpl. rewrite Hsdk. f_equal.
    apply record_headers_ext. intros k Hk. by apply (Hsame (response_headers response)).
Qed.




(** *** The outcome operations *)

Lemma attributes_span_end sp t : attributes (span_end sp t) = attributes sp.
Proof. unfold span_end. by rewrite attributes_call. Qed.

Lemma attributes_recordException sp ex : attributes (recordException sp ex) = attributes sp.
Proof. unfold recordException. by rewrite attributes_call. Qed.

(** X10. [captureException] hands the exception to the span and then
    ends it: these two calls, in this order, are all it adds to the span;
    it changes no attribute and asks for one flush. *)
Theorem captureException_records_then_ends (this : WorkerInstance) ex now :
  let r := captureException RequestInit this ex now in
  span_calls (span r.1) = span_calls (span this) ++ [RecordException ex; End (nudged_end this now)]
  ∧ attributes (span r.1) = attributes (span this)
  ∧ r.2 = [ForceFlush; WaitUntil].
Proof.
  simpl. split; [by rewrite <- app_assoc|]. split; [|done].
  by rewrite attributes_span_end, attributes_recordException.
Qed.

Lemma perform_fields (this : WorkerInstance) o :
  let r := perform RequestInit this o in
  sdk r.1 = sdk this ∧ flushed r.1 = flushed this ∧ startTime r.1 = startTime this
  ∧ span_name (span r.1) = span_name (span this)
  ∧ span_options (span r.1) = span_options (span this)
  ∧ r.2 = [ForceFlush; WaitUntil].
Proof.
  destruct o as [response now|ex now]; simpl; repeat split; try done.
  - by rewrite (proj1 (record_headers_name _ _ _ _ _)).
  - by rewrite (proj2 (record_headers_name _ _ _ _ _)).
Qed.

Lemma perform_calls (this : WorkerInstance) o :
  ∃ added t, span_calls (span (perform RequestInit this o).1)
             = span_calls (span this) ++ added ++ [End t]
             ∧ omap (fun c => match c with End t => Some t | _ => None end) added = [].
Proof.
  destruct o as [response now|ex now]; simpl.
  - rewrite record_headers_calls. simpl. eexists (_ :: _), _.
    rewrite <- !app_assoc. simpl. split; [reflexivity|]. simpl.
    induction (filter _ _) as [|k ks IH]; [done|]. done.
  - exists [RecordException ex], (nudged_end this now). by rewrite <- app_assoc.
Qed.

Lemma perform_end_calls (this : WorkerInstance) o :
  ∃ t, end_calls (span (perform RequestInit this o).1) = end_calls (span this) ++ [t].
Proof.
  destruct (perform_calls this o) as (added & t & Hcalls & Hadded).
  exists t. unfold end_calls. by rewrite Hcalls, !omap_app, Hadded.
Qed.

(** X11. However many outcome operations are called on an instance, in
    whatever order, each one ends the span once more and asks for one more
    flush; none undoes a call already made on the span, and none changes
    the SDK, the [flushed] field, the start time, or the name and options
    of the span. *)
Theorem outcome_sequences ops (this : WorkerInstance) :
  let r := perform_all RequestInit ops this in
  sdk r.1 = sdk this ∧ flushed r.1 = flushed this ∧ startTime r.1 = startTime this
  ∧ span_name (span r.1) = span_name (span this)
  ∧ span_options (span r.1) = span_options (span this)
  ∧ span_calls (span this) `prefix_of` span_calls (span r.1)
  ∧ length (end_calls (span r.1)) = (length (end_calls (span this)) + length ops)%nat
  ∧ r.2 = concat (replicate (length ops) [ForceFlush; WaitUntil]).
Proof.
  revert this. induction ops as [|o ops IH]; intros this.
  - simpl. rewrite Nat.add_0_r. repeat split; done.
  - cbn [perform_all fst snd].
    destruct (perform_fields this o) as (H1 & H2 & H3 & H4 & H5 & H6).
    destruct (perform_calls this o) as (added & t & Hcalls & _).
    destruct (perform_end_calls this o) as (t' & Hends).
    destruct (IH (perform RequestInit this o).1) as (I1 & I2 & I3 & I4 & I5 & I6 & I7 & I8).
    repeat split; try congruence.
    + etrans; [|exact I6]. rewrite Hcalls. by apply prefix_app_r.
    + rewrite I7, Hends, length_app. simpl. lia.
    + rewrite I8, H6. done.
Qed.

Lemma perform_all_flushed ops (this : WorkerInstance) :
  flushed (perform_all RequestInit ops this).1 = flushed this.
Proof.
  revert this. induction ops as [|o ops IH]; intros this; [done|].
  cbn [perform_all fst]. rewrite IH. apply perform_fields.
Qed.

(** X12. On an instance obtained from [start], after any number of
    outcome operations, [fetch] passes its two arguments on to the global
    [fetch] and does nothing else: it never warns. *)
Theorem fetch_is_a_plain_passthrough this eventOrRequest now1 now2 inst ops request requestInitr :
  start URL_new this eventOrRequest now1 now2 = Normal inst ->
  fetch RequestInit (perform_all RequestInit ops inst).1 request requestInitr
  = [GlobalFetch request requestInitr].
Proof.
  intros Hstart. unfold fetch.
  by rewrite perform_all_flushed, (start_flushed URL_new _ _ _ _ _ Hstart).
Qed.

(** X13. With clock readings that are whole milliseconds from [-2^47] up
    to, but excluding, [2^47], the time at which [sendResponse] and
    [captureException] end the span is the clock reading itself unless it
    equals the reading the instance started at, and it is strictly later
    than that start reading exactly when the clock has not gone
    backwards. *)
Theorem end_time_follows_the_clock (this : WorkerInstance) response ex now2 now3 :
  startTime this = Date_now now2 ->
  - 2 ^ 47 <= now2 < 2 ^ 47 -> - 2 ^ 47 <= now3 < 2 ^ 47 ->
  ∃ e,
    last (span_calls (span (sendResponse RequestInit this response now3).1.2)) = Some (End e)
    ∧ last (span_calls (span (captureException RequestInit this ex now3).1)) = Some (End e)
    ∧ (now2 ≠ now3 -> e = Date_now now3)
    ∧ (num_lt (startTime this) e = true <-> now2 <= now3).
Proof.
  intros Hstart H2 H3.
  assert (2 ^ 47 < 2 ^ 53) as Hpow by done.
  rewrite (sendResponse_last_call RequestInit), (captureException_last_call RequestInit).
  eexists. split; [done|]. split; [done|].
  unfold nudged_end. rewrite Hstart. unfold Date_now.
  rewrite of_Z_strict_eq by lia.
  case_bool_decide as Heq.
  - subst now3. split; [done|]. split; [lia|]. intros _. apply add_lit_later; lia.
  - split; [done|]. split.
    + intros Hlt. destruct (Z_lt_le_dec now3 now2) as [Hback|?]; [|done].
      rewrite (num_lt_asym (of_Z now3) (of_Z now2)) in Hlt; [done|]. apply of_Z_lt; lia.
    + intros Hle. apply of_Z_lt; lia.
Qed.

End MoreProperties.

Section ConstructorProperties.

Variable Sampler : Type.
Variable OptionValue : Type.

(** X14. Without a [resource] in the configuration the constructor
    builds a resource of exactly five attributes, in which [service.name]
    and [faas.name] are both the worker name; with a [resource] it uses
    that one as it is, and the worker name goes nowhere. *)
Theorem constructor_resource (config : NodeSDKConfiguration Sampler OptionValue) :
  let r := sdk_resource _ _ (WorkersSDK_constructor _ _ config) in
  match resource _ _ config with
  | Some given => r = given
  | None =>
      r !! SERVICE_NAME = Some (AttrString (workerName _ _ config))
      ∧ r !! FAAS_NAME = Some (AttrString (workerName _ _ config))
      ∧ r !! CLOUD_PROVIDER = Some (AttrString "cloudflare")
      ∧ r !! CLOUD_PLATFORM = Some (AttrString "workers")
      ∧ r !! PROCESS_RUNTIME_NAME = Some (AttrString "Cloudflare-Workers")
      ∧ dom r = {[CLOUD_PROVIDER; CLOUD_PLATFORM; SERVICE_NAME; FAAS_NAME; PROCESS_RUNTIME_NAME]}
  end.
Proof.
  simpl. destruct (resource _ _ config) as [given|]; simpl; [done|].
  unfold default_resource, SERVICE_NAME, FAAS_NAME, CLOUD_PROVIDER, CLOUD_PLATFORM,
    PROCESS_RUNTIME_NAME.
  split_and!; by simplify_map_eq.
Qed.

(** X15. The exporter is given every option of [exporterConfig]
    unchanged and, besides them, only [url]; [url] is the configured
    endpoint unless [exporterConfig] carries a [url] of its own, which
    then wins. *)
Theorem constructor_exporter_options (config : NodeSDKConfiguration Sampler OptionValue) key :
  let given := default ∅ (exporterConfig _ _ config) in
  let opts := exporter_options _ _ (WorkersSDK_constructor _ _ config) in
  (key ≠ "url" -> opts !! key = given !! key)
  ∧ (given !! "url" = None -> opts !! "url" = Some (OptionString (endpoint _ _ config)))
  ∧ (∀ v, given !! "url" = Some v -> opts !! "url" = Some v).
Proof.
  simpl. unfold exporter_arguments. repeat split.
  - intros Hne. rewrite lookup_union_l; [done|]. by rewrite lookup_singleton_ne.
  - intros Hnone. rewrite lookup_union_r by done. apply lookup_singleton_eq.
  - intros v Hv. by apply lookup_union_Some_l.
Qed.

End ConstructorProperties.

(** ** The further properties, run on the scenarios *)

Lemma http_scheme_drops_the_colon_witness :
  Sample.URL_new (url Sample.request) = Some Sample.parsed
  ∧ protocol Sample.parsed = "https" +:+ ":"
  ∧ ∃ sp, getSpan Sample.URL_new Sample.sdk_x (Some (OfRequest Sample.request)) 5 = Normal sp
          ∧ attributes sp !! HTTP_SCHEME = Some (AttrString "https").
Proof.
  split; [reflexivity|]. split; [reflexivity|].
  exact (http_scheme_drops_the_colon Sample.URL_new Sample.sdk_x Sample.request 5
           Sample.parsed "https" eq_refl eq_refl).
Defined.


Lemma capitalised_entries_admit_nothing_witness :
  toLowerCase "User-Agent" ≠ "User-Agent"
  ∧ allowedHeaders Scenario.sdk_capitalised = [Exact "cf-ray"] ++ Exact "User-Agent" :: []
  ∧ getSpan Sample.URL_new Scenario.sdk_capitalised (Some (OfRequest Sample.request)) 5
    = getSpan Sample.URL_new
        {| allowedHeaders := [Exact "cf-ray"] ++ [];
           allowedSearch := allowedSearch Scenario.sdk_capitalised |}
        (Some (OfRequest Sample.request)) 5.
Proof.
  assert (toLowerCase "User-Agent" ≠ "User-Agent") as Hcap by (vm_compute; discriminate).
  split; [exact Hcap|]. split; [reflexivity|].
  exact (proj1 (capitalised_entries_admit_nothing Sample.URL_new unit Scenario.sdk_capitalised
                  "User-Agent" [Exact "cf-ray"] [] (Some (OfRequest Sample.request)) 5
                  (new_WorkerInstance Scenario.sdk_capitalised Scenario.request_span 5)
                  Sample.response_500 9 Hcap eq_refl eq_refl)).
Defined.

Lemma fetch_is_a_plain_passthrough_witness :
  start Sample.URL_new Sample.sdk_x (Some (OfRequest Sample.request)) 5 5
    = Normal Scenario.request_instance
  ∧ fetch unit
      (perform_all unit [Respond Sample.response_500 9; Capture (Error "boom") 10]
         Scenario.request_instance).1
      (inr "https://svc.example/sub") None
    = [GlobalFetch (inr "https://svc.example/sub") None].
Proof.
  assert (start Sample.URL_new Sample.sdk_x (Some (OfRequest Sample.request)) 5 5
          = Normal Scenario.request_instance) as Hstart by (vm_compute; reflexivity).
  split; [exact Hstart|].
  exact (fetch_is_a_plain_passthrough Sample.URL_new unit _ _ _ _ _
           [Respond Sample.response_500 9; Capture (Error "boom") 10]
           (inr "https://svc.example/sub") None Hstart).
Defined.

Lemma end_time_follows_the_clock_witness :
  let inst := new_WorkerInstance Sample.sdk_x Scenario.request_span 1700000000000 in
  startTime inst = Date_now 1700000000000
  ∧ (- 2 ^ 47 <= 1700000000000 < 2 ^ 47) ∧ (- 2 ^ 47 <= 1700000000005 < 2 ^ 47)
  ∧ last (span_calls (span (sendResponse unit inst Sample.response_500 1700000000005).1.2))
    = Some (End (Date_now 1700000000005)).
Proof.
  intros inst.
  assert (- 2 ^ 47 <= 1700000000000 < 2 ^ 47) as H2 by (split; [discriminate|reflexivity]).
  assert (- 2 ^ 47 <= 1700000000005 < 2 ^ 47) as H3 by (split; [discriminate|reflexivity]).
  split; [reflexivity|]. split; [exact H2|]. split; [exact H3|].
  destruct (end_time_follows_the_clock unit inst Sample.response_500 (Error "boom")
              1700000000000 1700000000005 eq_refl H2 H3) as (e & Hlast & _ & Hexact & _).
  rewrite Hlast. rewrite (Hexact ltac:(discriminate)). reflexivity.
Defined.

Lemma constructor_exporter_options_witness :
  default ∅ (exporterConfig _ _ Scenario.minimal_config) !! "url" = None
  ∧ exporter_options _ _ (WorkersSDK_constructor _ _ Scenario.minimal_config) !! "url"
    = Some (OptionString "https://collector.example/v1/traces").
Proof.
  assert (default ∅ (exporterConfig _ _ Scenario.minimal_config) !! "url" = None) as Hnone
    by reflexivity.
  split; [exact Hnone|].
  exact (proj1 (proj2 (constructor_exporter_options unit unit Scenario.minimal_config "url"))
           Hnone).
Defined.

(** * Patterns with flags *)

(** ** Patterns without [g] and [y] keep no state *)

Lemma scan_existsb m i fuel :
  match Stateful.scan m false i fuel with Some _ => true | None => false end
  = existsb (fun j => match m j with Some _ => true | None => false end) (seq i fuel).
Proof.
  revert i. induction fuel as [|fuel IH]; intros i; simpl; [done|].
  destruct (m i); [done|]. apply IH.
Qed.

Lemma RegExp_test_flagless r s σ :
  Stateful.flagless r ->
  Stateful.RegExp_test r s σ = (Stateful.matches_somewhere r s, σ).
Proof.
  intros [Hg Hy]. unfold Stateful.RegExp_test, Stateful.exec, Stateful.matches_somewhere.
  rewrite Hg, Hy. cbn [orb Nat.ltb Nat.leb].
  replace (String.length s - 0 + 1)%nat with (S (String.length s)) by lia.
  by rewrite scan_existsb.
Qed.

Lemma entry_matches_flagless key a σ :
  Stateful.flagless_entry a ->
  Stateful.entry_matches key a σ = (Stateful.spec_entry_admits key a, σ).
Proof. destruct a as [s|r]; simpl; [done|]. apply RegExp_test_flagless. Qed.

Lemma isAllowed_flagless key l σ :
  Forall Stateful.flagless_entry l ->
  Stateful.isAllowed key l σ = (Stateful.spec_key_passes l key, σ).
Proof.
  induction 1 as [|a l Ha _ IH]; [done|].
  cbn [Stateful.isAllowed Stateful.spec_key_passes existsb].
  rewrite entry_matches_flagless by done. cbn [fst snd].
  destruct (Stateful.spec_entry_admits key a); [done|]. apply IH.
Qed.

Lemma search_allowed_flagless a key σ :
  Stateful.flagless_search a ->
  Stateful.search_allowed a key σ = (Stateful.spec_query_key_passes a key, σ).
Proof.
  destruct a as [r|l]; simpl; intros H.
  - by apply RegExp_test_flagless.
  - by apply isAllowed_flagless.
Qed.

Lemma filtered_search_flagless a params σ :
  Stateful.flagless_search a ->
  Stateful.filtered_search a params σ
  = (filter (λ kv, Stateful.spec_query_key_passes a kv.1 = true) params, σ).
Proof.
  intros Ha. unfold Stateful.filtered_search, URLSearchParams_new.
  rewrite <- (app_nil_l (filter _ params)). generalize (@nil (string * string)) as acc.
  induction params as [|kv params IH]; intros acc; cbn [Stateful.filtered_search_from].
  - by rewrite app_nil_r.
  - rewrite search_allowed_flagless by done. cbn [fst snd].
    rewrite IH, filter_cons. unfold URLSearchParams_append.
    destruct (Stateful.spec_query_key_passes a kv.1) eqn:E.
    + rewrite decide_True by done. rewrite <- app_assoc. by destruct kv.
    + rewrite decide_False by done. done.
Qed.

(** ** The stateful loops and the ones without state *)

Lemma some_existsb {A} (f : A -> bool) l : some f l = existsb f l.
Proof. induction l as [|a l IH]; simpl; [done|]. by rewrite IH. Qed.

Lemma isAllowed_erase key l :
  isAllowed key (map erase_entry l) = Stateful.spec_key_passes l key.
Proof.
  unfold isAllowed, Stateful.spec_key_passes. rewrite some_existsb.
  induction l as [|a l IH]; [done|]. cbn [map existsb]. rewrite IH. by destruct a.
Qed.

Lemma search_allowed_erase a key :
  search_allowed (erase_search a) key = Stateful.spec_query_key_passes a key.
Proof. destruct a as [r|l]; simpl; [done|]. apply isAllowed_erase. Qed.

Lemma record_headers_flagless excluded pre al h sp σ :
  Forall Stateful.flagless_entry al ->
  Stateful.record_headers excluded pre al h sp σ
  = (record_headers excluded pre (map erase_entry al) h sp, σ).
Proof.
  intros Hal. unfold Stateful.record_headers, record_headers. revert sp.
  induction (Headers_keys h) as [|k ks IH]; intros sp; [done|].
  cbn [Stateful.record_headers_from fold_left].
  destruct (String.eqb k excluded); [apply IH|].
  rewrite isAllowed_flagless by done. cbn [fst snd]. rewrite isAllowed_erase.
  destruct (Stateful.spec_key_passes al k); apply IH.
Qed.

(** Whatever the flags are, a header loop only adds header calls. *)
Lemma record_headers_added excluded pre al h sp σ :
  ∃ added,
    span_calls (Stateful.record_headers excluded pre al h sp σ).1 = span_calls sp ++ added
    ∧ Forall (header_call excluded pre h) added
    ∧ span_name (Stateful.record_headers excluded pre al h sp σ).1 = span_name sp
    ∧ span_options (Stateful.record_headers excluded pre al h sp σ).1 = span_options sp.
Proof.
  unfold Stateful.record_headers.
  assert (∀ k, k ∈ Headers_keys h -> k ∈ Headers_keys h) as Hsub by done.
  revert Hsub. generalize (Headers_keys h) at 1 3 4 5 as keys.
  intros keys. revert sp σ.
  induction keys as [|k ks IH]; intros sp σ Hsub; cbn [Stateful.record_headers_from].
  - exists []. by rewrite app_nil_r.
  - assert (∀ k', k' ∈ ks -> k' ∈ Headers_keys h) as Hsub' by (intros k' Hk'; apply Hsub; by right).
    destruct (String.eqb_spec k excluded) as [->|Hne]; [by apply IH|].
    destruct (negb _); [by apply IH|].
    destruct (IH (setAttribute sp (pre +:+ toLowerCase k) (AttrArray [Headers_get h k]))
                 (Stateful.isAllowed k al σ).2 Hsub') as (added & Hcalls & Hadded & Hname & Hopts).
    exists (SetAttribute (pre +:+ toLowerCase k) (AttrArray [Headers_get h k]) :: added).
    split; [|split; [|done]].
    + rewrite Hcalls. simpl. by rewrite <- app_assoc.
    + constructor; [|done]. exists k. split; [apply Hsub; left|done].
Qed.

Lemma header_call_key excluded pre h c :
  header_call excluded pre h c ->
  ∃ k v, c = SetAttribute (pre +:+ k) v ∧ k ∈ Headers_keys h ∧ k ≠ excluded.
Proof.
  intros (k & Hk & Hne & ->). exists k. eexists. by rewrite (Headers_keys_lower h k Hk).
Qed.

Lemma target_suffix (kept : URLSearchParams) :
  (if String.eqb (URLSearchParams_toString kept) "" then ""
   else "?" +:+ URLSearchParams_toString kept)
  = match kept with [] => "" | _ => "?" +:+ URLSearchParams_toString kept end.
Proof.
  destruct (String.eqb_spec (URLSearchParams_toString kept) "") as [E|E].
  - apply URLSearchParams_toString_empty in E. by rewrite E.
  - destruct kept; [by destruct E|done].
Qed.

Section FlagProperties.

Variable URL_new : string -> option URL.
Variable RequestInit : Type.

Lemma stateful_getSpan_request this request now u σ :
  URL_new (url request) = Some u ->
  let filtered := Stateful.filtered_search (Stateful.allowedSearch this) (searchParams u) σ in
  let search := URLSearchParams_toString filtered.1 in
  let recorded :=
    Stateful.record_headers "cookie" "http.request.header." (Stateful.allowedHeaders this)
      (headers request)
      (setAttributes
         (startSpan ("fetch " +:+ method request +:+ " " +:+ pathname u)
            {| opt_kind := INTERNAL; opt_root := true; opt_startTime := Date_now now |})
         [ (HTTP_METHOD, AttrString (method request));
           (HTTP_URL, AttrString (url request));
           (HTTP_TARGET, AttrString (pathname u +:+
              (if String.eqb search "" then "" else "?" +:+ search)));
           (HTTP_HOST, AttrString (host u));
           (NET_HOST_NAME, AttrString (hostname u));
           (NET_HOST_PORT, AttrString (port u));
           (HTTP_SCHEME, AttrString (substring_0 (String.length (protocol u) - 1) (protocol u)));
           (HTTP_USER_AGENT, attr_of_nullable (Headers_get (headers request) "user-agent"));
           (NET_PEER_IP, attr_of_nullable (Headers_get (headers request) "cf-connecting-ip"));
           (HTTP_CLIENT_IP, attr_of_nullable (Headers_get (headers request) "cf-connecting-ip")) ])
      filtered.2 in
  Stateful.getSpan URL_new this (Some (OfRequest request)) now σ = (Normal recorded.1, recorded.2).
Proof.
  intros Hu. unfold Stateful.getSpan, Stateful.request_attributes. simpl.
  rewrite Hu. reflexivity.
Qed.

(** A configuration whose patterns carry no flag behaves as the
    configuration without state that it erases to, and leaves every
    [lastIndex] alone. *)
Lemma getSpan_flagless this eventOrRequest now σ :
  Stateful.flagless_search (Stateful.allowedSearch this) ->
  Forall Stateful.flagless_entry (Stateful.allowedHeaders this) ->
  Stateful.getSpan URL_new this eventOrRequest now σ
  = (getSpan URL_new (erase this) eventOrRequest now, σ).
Proof.
  intros Hs Hh. destruct eventOrRequest as [[scheduledEvent|request]|]; [done| |done].
  destruct (URL_new (url request)) as [u|] eqn:Hu.
  - rewrite (stateful_getSpan_request _ _ _ u _ Hu). cbv zeta.
    rewrite (getSpan_request_eq URL_new _ _ _ u Hu).
    rewrite filtered_search_flagless by done. cbn [fst snd].
    rewrite record_headers_flagless by done. cbn [fst snd erase allowedHeaders allowedSearch].
    rewrite filtered_search_filter.
    assert (filter (λ kv, search_allowed (erase_search (Stateful.allowedSearch this)) kv.1 = true)
              (searchParams u)
            = filter (λ kv, Stateful.spec_query_key_passes (Stateful.allowedSearch this) kv.1 = true)
                (searchParams u)) as ->; [|done].
    apply list_filter_iff. intros kv. by rewrite search_allowed_erase.
  - rewrite getSpan_request_invalid_url by done.
    unfold Stateful.getSpan. simpl. by rewrite Hu.
Qed.

Lemma sendResponse_flagless (this : Stateful.WorkerInstance) response now σ :
  Forall Stateful.flagless_entry (Stateful.allowedHeaders (Stateful.sdk this)) ->
  let this' := {| sdk := erase (Stateful.sdk this); span := Stateful.span this;
                  flushed := Stateful.flushed this; startTime := Stateful.startTime this |} in
  let r := Stateful.sendResponse RequestInit this response now σ in
  let r' := sendResponse RequestInit this' response now in
  r.1.1.1 = r'.1.1 ∧ Stateful.span r.1.1.2 = span r'.1.2
  ∧ Stateful.flushed r.1.1.2 = flushed r'.1.2 ∧ r.1.2 = r'.2 ∧ r.2 = σ.
Proof.
  intros Hh. cbv zeta. unfold Stateful.sendResponse, sendResponse.
  rewrite record_headers_flagless by done. done.
Qed.

End FlagProperties.

(** ** What holds without flags, and what the flags break *)

Lemma fold_header_calls_other (m : gmap string AttributeValue) excluded pre h added key :
  Forall (header_call excluded pre h) added ->
  (∀ k, key ≠ pre +:+ k) ->
  fold_left apply_call added m !! key = m !! key.
Proof.
  intros Hadded Hkey. apply fold_apply_call_other. intros v Hin.
  rewrite Forall_forall in Hadded. apply Hadded in Hin.
  apply header_call_key in Hin as (k & v' & [= E _] & _). by apply (Hkey k).
Qed.

(** C8 (as amended). For an allow-list whose patterns carry neither the
    [g] nor the [y] flag, the allow-list test is a disjunction over the
    entries: a key is allowed iff it equals some string entry or some
    pattern entry matches it; the test leaves every [lastIndex] as it was;
    hence every permutation of the entries allows the same keys. *)
Theorem allow_list_without_flags_is_disjunction key allowList σ :
  Forall Stateful.flagless_entry allowList ->
  ((Stateful.isAllowed key allowList σ).1 = true <->
   (∃ s, Stateful.ExactEntry s ∈ allowList ∧ s = key)
   ∨ (∃ r, Stateful.RegExpEntry r ∈ allowList ∧ Stateful.matches_somewhere r key = true))
  ∧ (Stateful.isAllowed key allowList σ).2 = σ
  ∧ ∀ allowList', allowList ≡ₚ allowList' ->
      Stateful.isAllowed key allowList' σ = Stateful.isAllowed key allowList σ.
Proof.
  intros Hflagless. rewrite isAllowed_flagless by done. cbn [fst snd].
  split; [|split; [done|]].
  - unfold Stateful.spec_key_passes. rewrite existsb_exists. split.
    + intros ([s|r] & Hin & Hm); apply list_elem_of_In in Hin; simpl in Hm.
      * apply String.eqb_eq in Hm as ->. left. eauto.
      * right. eauto.
    + intros [(s & Hin & ->)|(r & Hin & Hm)].
      * exists (Stateful.ExactEntry key). rewrite <- list_elem_of_In.
        split; [done|]. apply String.eqb_refl.
      * exists (Stateful.RegExpEntry r). by rewrite <- list_elem_of_In.
  - intros allowList' Hperm.
    rewrite isAllowed_flagless by (by rewrite <- Hperm). f_equal.
    unfold Stateful.spec_key_passes. rewrite <- !some_existsb.
    symmetry. by apply some_Permutation.
Qed.

Section FlagTheorems.

Variable URL_new : string -> option URL.
Variable RequestInit : Type.

(** The calls a request span is built from, whatever the flags of the
    patterns: the ten of [setAttributes], then header calls. *)
Lemma stateful_request_span this request now u σ :
  URL_new (url request) = Some u ->
  ∃ sp σ' added,
    Stateful.getSpan URL_new this (Some (OfRequest request)) now σ = (Normal sp, σ')
    ∧ span_name sp = "fetch " +:+ method request +:+ " " +:+ pathname u
    ∧ span_calls sp =
        [ SetAttribute HTTP_METHOD (AttrString (method request));
          SetAttribute HTTP_URL (AttrString (url request));
          SetAttribute HTTP_TARGET
            (AttrString (pathname u +:+
               (let search := URLSearchParams_toString
                                (Stateful.filtered_search (Stateful.allowedSearch this)
                                   (searchParams u) σ).1 in
                if String.eqb search "" then "" else "?" +:+ search)));
          SetAttribute HTTP_HOST (AttrString (host u));
          SetAttribute NET_HOST_NAME (AttrString (hostname u));
          SetAttribute NET_HOST_PORT (AttrString (port u));
          SetAttribute HTTP_SCHEME
            (AttrString (substring_0 (String.length (protocol u) - 1) (protocol u)));
          SetAttribute HTTP_USER_AGENT
            (attr_of_nullable (Headers_get (headers request) "user-agent"));
          SetAttribute NET_PEER_IP
            (attr_of_nullable (Headers_get (headers request) "cf-connecting-ip"));
          SetAttribute HTTP_CLIENT_IP
            (attr_of_nullable (Headers_get (headers request) "cf-connecting-ip")) ]
        ++ added
    ∧ Forall (header_call "cookie" "http.request.header." (headers request)) added.
Proof.
  intros Hu. rewrite (stateful_getSpan_request URL_new _ _ _ u _ Hu). cbv zeta.
  match goal with |- context [Stateful.record_headers ?e ?p ?al ?h ?sp ?s] =>
    destruct (record_headers_added e p al h sp s) as (added & Hcalls & Hadded & Hname & _) end.
  eexists _, _, added. split; [done|]. split; [by rewrite Hname|]. split; [|done].
  by rewrite Hcalls.
Qed.

(** C2 (as amended). For every request trigger and every query
    allow-list whose patterns carry neither the [g] nor the [y] flag, the
    [http.target] attribute of the root span is the URL path followed by
    the serialization of exactly those query parameters whose key passes
    the allow-list (it equals a string entry, or a pattern matches it), in
    their original order; the question mark is left out when no parameter
    passes. *)
Theorem http_target_without_flags this request now u σ :
  Stateful.flagless_search (Stateful.allowedSearch this) ->
  URL_new (url request) = Some u ->
  ∃ sp σ', Stateful.getSpan URL_new this (Some (OfRequest request)) now σ = (Normal sp, σ') ∧
    let kept := filter (λ kv, Stateful.spec_query_key_passes (Stateful.allowedSearch this) kv.1 = true)
                       (searchParams u) in
    attributes sp !! HTTP_TARGET =
      Some (AttrString (pathname u +:+
              match kept with
              | [] => ""
              | _ => "?" +:+ URLSearchParams_toString kept
              end)).
Proof.
  intros Hflagless Hu.
  destruct (stateful_request_span this request now u σ Hu)
    as (sp & σ' & added & Hsp & _ & Hcalls & Hadded).
  exists sp, σ'. split; [done|]. cbv zeta.
  unfold attributes. rewrite Hcalls, fold_left_app.
  rewrite (fold_header_calls_other _ _ _ _ _ _ Hadded) by not_a_header_key.
  rewrite filtered_search_flagless by done. cbn [fst].
  rewrite target_suffix. simpl. unfold_keys. by simplify_map_eq.
Qed.

(** X2. The span of a request is named ["fetch " + method + " " + path].
    The first ten calls made on it set, in this order, the method, the URL
    as given, the target, the host, host name and port of the parsed URL,
    the scheme, the [user-agent] header under [http.user_agent] and the
    [cf-connecting-ip] header under [net.peer.ip] and [http.client_ip],
    passing [null] for a header that is absent; every later call sets a
    [http.request.header.*] key, so that none of them overwrites the ten.
    The values that are strings are the ones the span ends up with. *)
Theorem request_span_semantic_calls this request now u σ :
  URL_new (url request) = Some u ->
  ∃ sp σ' target added,
    Stateful.getSpan URL_new this (Some (OfRequest request)) now σ = (Normal sp, σ')
    ∧ span_name sp = "fetch " +:+ method request +:+ " " +:+ pathname u
    ∧ span_calls sp =
        [ SetAttribute HTTP_METHOD (AttrString (method request));
          SetAttribute HTTP_URL (AttrString (url request));
          SetAttribute HTTP_TARGET (AttrString target);
          SetAttribute HTTP_HOST (AttrString (host u));
          SetAttribute NET_HOST_NAME (AttrString (hostname u));
          SetAttribute NET_HOST_PORT (AttrString (port u));
          SetAttribute HTTP_SCHEME
            (AttrString (substring_0 (String.length (protocol u) - 1) (protocol u)));
          SetAttribute HTTP_USER_AGENT
            (attr_of_nullable (Headers_get (headers request) "user-agent"));
          SetAttribute NET_PEER_IP
            (attr_of_nullable (Headers_get (headers request) "cf-connecting-ip"));
          SetAttribute HTTP_CLIENT_IP
            (attr_of_nullable (Headers_get (headers request) "cf-connecting-ip")) ]
        ++ added
    ∧ Forall (fun c => ∃ k v, c = SetAttribute ("http.request.header." +:+ k) v) added
    ∧ attributes sp !! HTTP_METHOD = Some (AttrString (method request))
    ∧ attributes sp !! HTTP_URL = Some (AttrString (url request))
    ∧ attributes sp !! HTTP_HOST = Some (AttrString (host u))
    ∧ attributes sp !! NET_HOST_NAME = Some (AttrString (hostname u))
    ∧ attributes sp !! NET_HOST_PORT = Some (AttrString (port u))
    ∧ (∀ v, Headers_get (headers request) "user-agent" = Some v ->
            attributes sp !! HTTP_USER_AGENT = Some (AttrString v))
    ∧ (∀ v, Headers_get (headers request) "cf-connecting-ip" = Some v ->
            attributes sp !! NET_PEER_IP = Some (AttrString v)
            ∧ attributes sp !! HTTP_CLIENT_IP = Some (AttrString v)).
Proof.
  intros Hu.
  destruct (stateful_request_span this request now u σ Hu)
    as (sp & σ' & added & Hsp & Hname & Hcalls & Hadded).
  exists sp, σ'. eexists _, added. split; [done|]. split; [done|]. split; [exact Hcalls|].
  split.
  { eapply Forall_impl; [exact Hadded|]. intros c Hc.
    apply header_call_key in Hc as (k & v & -> & _). eauto. }
  unfold attributes. rewrite Hcalls, fold_left_app.
  rewrite !(fold_header_calls_other _ _ _ _ _ _ Hadded) by not_a_header_key.
  simpl. unfold_keys.
  repeat split; try (by simplify_map_eq).
  - intros v ->. by simplify_map_eq.
  - rewrite H. by simplify_map_eq.
  - rewrite H. by simplify_map_eq.
Qed.

(** X4. When the patterns of the header allow-list carry neither the [g]
    nor the [y] flag, span construction calls [setAttribute] for
    [http.request.header.<k>] exactly for the lower-cased names [k] of the
    request's headers other than [cookie] that pass the header allow-list,
    and the value it passes is a one-element array holding the values of
    that header joined by [", "], never [null]. *)
Theorem request_header_calls this request now u σ :
  Forall Stateful.flagless_entry (Stateful.allowedHeaders this) ->
  URL_new (url request) = Some u ->
  ∃ sp σ', Stateful.getSpan URL_new this (Some (OfRequest request)) now σ = (Normal sp, σ') ∧
    ∀ k v,
      SetAttribute ("http.request.header." +:+ k) v ∈ span_calls sp <->
      k ∈ map (fun nv => toLowerCase nv.1) (header_list (headers request))
      ∧ k ≠ "cookie"
      ∧ Stateful.spec_key_passes (Stateful.allowedHeaders this) k = true
      ∧ v = AttrArray [Some (join ", " (header_values (headers request) k))].
Proof.
  intros Hflagless Hu. rewrite (stateful_getSpan_request URL_new _ _ _ u _ Hu). cbv zeta.
  rewrite record_headers_flagless by done. cbn [fst snd].
  eexists _, _. split; [done|]. intros k v.
  rewrite record_headers_calls, elem_of_app. split.
  - intros [Hin|Hin]; [exfalso; simpl in Hin; not_in_literal_list Hin|].
    apply list_elem_of_In, in_map_iff in Hin as (k' & [= Hk Hv] & Hin).
    apply list_elem_of_In, list_elem_of_filter in Hin as [[Hne Hal] Hin].
    rewrite (Headers_keys_lower _ _ Hin) in Hk. apply append_inj_r in Hk. subst k'.
    rewrite isAllowed_erase in Hal.
    rewrite (proj2 (Headers_get_key _ _ Hin)) in Hv.
    split; [by apply Headers_keys_names|done].
  - intros (Hin & Hne & Hal & ->). right. apply Headers_keys_names in Hin.
    apply list_elem_of_In, in_map_iff. exists k.
    rewrite (Headers_keys_lower _ _ Hin), (proj2 (Headers_get_key _ _ Hin)).
    split; [done|]. apply list_elem_of_In, list_elem_of_filter.
    by rewrite isAllowed_erase.
Qed.


(** X8. Whatever the flags of the patterns, [sendResponse] first calls
    [setAttribute] for [http.status_code] with the status of the response,
    then makes header calls, all of them for [http.response.header.*]
    keys, and then ends the span; it makes no [setAttribute] call for any
    other key. *)
Theorem sendResponse_calls (this : Stateful.WorkerInstance) response now σ :
  let sp' := Stateful.span (Stateful.sendResponse RequestInit this response now σ).1.1.2 in
  ∃ added e,
    span_calls sp' =
      span_calls (Stateful.span this)
      ++ SetAttribute HTTP_STATUS_CODE (AttrNumber (status response)) :: added ++ [End e]
    ∧ Forall (fun c => ∃ k v, c = SetAttribute ("http.response.header." +:+ k) v) added
    ∧ ∀ key v,
        SetAttribute key v ∈ span_calls sp' ->
        key = HTTP_STATUS_CODE ∨ (∃ k, key = "http.response.header." +:+ k)
        ∨ SetAttribute key v ∈ span_calls (Stateful.span this).
Proof.
  cbv zeta. unfold Stateful.sendResponse. cbn [fst snd Stateful.span span_end call span_calls].
  match goal with |- context [Stateful.record_headers ?e ?p ?al ?h ?sp ?s] =>
    destruct (record_headers_added e p al h sp s) as (added & Hcalls & Hadded & _) end.
  rewrite Hcalls. simpl.
  assert (Forall (fun c => ∃ k v, c = SetAttribute ("http.response.header." +:+ k) v) added)
    as Hkeys.
  { eapply Forall_impl; [exact Hadded|]. intros c Hc.
    apply header_call_key in Hc as (k & v & -> & _). eauto. }
  exists added. eexists. split; [by rewrite <- !app_assoc|]. split; [done|].
  intros key v Hin. rewrite !elem_of_app, elem_of_cons in Hin.
  destruct Hin as [[[Hin|[[= -> _]|Hin]]|Hin]|Hin].
  - by right; right.
  - by left.
  - by apply elem_of_nil in Hin.
  - rewrite Forall_forall in Hkeys. apply Hkeys in Hin as (k & v' & [= -> _]). right; left. eauto.
  - by apply list_elem_of_singleton in Hin.
Qed.


End FlagTheorems.

(** ** The patterns with flags, run *)

(** C2 as stated fails for the allow-list [/x/g] on the query
    [x=1&x=2&x=3]: every key passes the pattern, yet the second test starts
    at the [lastIndex] that the first one left, fails, and the target
    recorded is [/s?x=1&x=3]. *)
Lemma global_pattern_skips_a_passing_parameter :
  Flagged.URL_new (url Flagged.request) = Some Flagged.parsed
  ∧ (∀ kv, kv ∈ searchParams Flagged.parsed ->
       Stateful.spec_query_key_passes (Stateful.allowedSearch Flagged.sdk_x_g) kv.1 = true)
  ∧ (∃ sp σ', Stateful.getSpan Flagged.URL_new Flagged.sdk_x_g
                (Some (OfRequest Flagged.request)) 0 ∅ = (Normal sp, σ')
              ∧ attributes sp !! HTTP_TARGET = Some (AttrString "/s?x=1&x=3"))
  ∧ ¬ ∃ sp σ', Stateful.getSpan Flagged.URL_new Flagged.sdk_x_g
                 (Some (OfRequest Flagged.request)) 0 ∅ = (Normal sp, σ') ∧
        let kept := filter (λ kv, Stateful.spec_query_key_passes
                                    (Stateful.allowedSearch Flagged.sdk_x_g) kv.1 = true)
                           (searchParams Flagged.parsed) in
        attributes sp !! HTTP_TARGET =
          Some (AttrString (pathname Flagged.parsed +:+
                  match kept with
                  | [] => ""
                  | _ => "?" +:+ URLSearchParams_toString kept
                  end)).
Proof.
  split; [reflexivity|]. split.
  { intros kv Hkv. simpl in Hkv.
    repeat (apply elem_of_cons in Hkv as [->|Hkv]; [reflexivity|]).
    by apply elem_of_nil in Hkv. }
  split.
  { eexists _, _. split; [vm_compute; reflexivity|]. by vm_compute. }
  intros (sp & σ' & Hsp & Htarget).
  vm_compute in Hsp. injection Hsp as <- _.
  vm_compute in Htarget. discriminate Htarget.
Qed.

Lemma http_target_without_flags_witness :
  Stateful.flagless_search (Stateful.allowedSearch Flagged.sdk_dot)
  ∧ Flagged.URL_new (url Flagged.request) = Some Flagged.parsed
  ∧ ∃ sp σ', Stateful.getSpan Flagged.URL_new Flagged.sdk_dot
               (Some (OfRequest Flagged.request)) 5 ∅ = (Normal sp, σ')
             ∧ attributes sp !! HTTP_TARGET = Some (AttrString "/s?x=1&x=2&x=3").
Proof.
  assert (Stateful.flagless_search (Stateful.allowedSearch Flagged.sdk_dot)) as Hflagless
    by (split; reflexivity).
  split; [exact Hflagless|]. split; [reflexivity|].
  exact (http_target_without_flags Flagged.URL_new Flagged.sdk_dot Flagged.request 5
           Flagged.parsed ∅ Hflagless eq_refl).
Defined.

(** C8 as stated fails for the entries ['x'] and [/./g]: asked about the
    key [x] and then about the key [y], the list with the pattern first
    refuses [y], which its pattern matches, because the test of [x] moved
    the [lastIndex] of the pattern; the list with the string first never
    tests the pattern on [x], and allows [y]. The query [x=1&y=2] is
    filtered differently by the two. *)
Lemma global_pattern_makes_order_matter :
  Flagged.pattern_then_string ≡ₚ Flagged.string_then_pattern
  ∧ (let σ := (Stateful.isAllowed "x" Flagged.pattern_then_string ∅).2 in
     ¬ ((Stateful.isAllowed "y" Flagged.pattern_then_string σ).1 = true <->
        (∃ s, Stateful.ExactEntry s ∈ Flagged.pattern_then_string ∧ s = "y")
        ∨ (∃ r, Stateful.RegExpEntry r ∈ Flagged.pattern_then_string
                ∧ Stateful.matches_somewhere r "y" = true)))
  ∧ (Stateful.isAllowed "y" Flagged.pattern_then_string
       (Stateful.isAllowed "x" Flagged.pattern_then_string ∅).2).1 = false
  ∧ (Stateful.isAllowed "y" Flagged.string_then_pattern
       (Stateful.isAllowed "x" Flagged.string_then_pattern ∅).2).1 = true
  ∧ (Stateful.filtered_search (Stateful.SearchEntries Flagged.pattern_then_string)
       [("x", "1"); ("y", "2")] ∅).1 = [("x", "1")]
  ∧ (Stateful.filtered_search (Stateful.SearchEntries Flagged.string_then_pattern)
       [("x", "1"); ("y", "2")] ∅).1 = [("x", "1"); ("y", "2")].
Proof.
  split; [apply perm_swap|]. split.
  { cbv zeta. intros [_ H].
    assert ((Stateful.isAllowed "y" Flagged.pattern_then_string
               (Stateful.isAllowed "x" Flagged.pattern_then_string ∅).2).1 = true) as Habs.
    { apply H. right. exists Flagged.regexp_dot_g. split; [left|reflexivity]. }
    vm_compute in Habs. discriminate Habs. }
  repeat split; by vm_compute.
Qed.

Lemma allow_list_without_flags_is_disjunction_witness :
  Forall Stateful.flagless_entry
    [Stateful.RegExpEntry Flagged.regexp_dot; Stateful.ExactEntry "x"]
  ∧ [Stateful.RegExpEntry Flagged.regexp_dot; Stateful.ExactEntry "x"]
    ≡ₚ [Stateful.ExactEntry "x"; Stateful.RegExpEntry Flagged.regexp_dot]
  ∧ Stateful.isAllowed "y" [Stateful.ExactEntry "x"; Stateful.RegExpEntry Flagged.regexp_dot] ∅
    = Stateful.isAllowed "y" [Stateful.RegExpEntry Flagged.regexp_dot; Stateful.ExactEntry "x"] ∅.
Proof.
  assert (Forall Stateful.flagless_entry
            [Stateful.RegExpEntry Flagged.regexp_dot; Stateful.ExactEntry "x"]) as Hflagless.
  { constructor; [split; reflexivity|]. constructor; [exact I|constructor]. }
  assert ([Stateful.RegExpEntry Flagged.regexp_dot; Stateful.ExactEntry "x"]
          ≡ₚ [Stateful.ExactEntry "x"; Stateful.RegExpEntry Flagged.regexp_dot]) as Hperm
    by apply perm_swap.
  split; [exact Hflagless|]. split; [exact Hperm|].
  exact (proj2 (proj2 (allow_list_without_flags_is_disjunction "y" _ ∅ Hflagless)) _ Hperm).
Defined.

(** Inside the range, the nudged end time and the start instant can
    still be one and the same number of seconds: at 68719476736001 ms the
    end time is strictly greater, and both quotients by 1000 round to the
    same Number. *)
Lemma nudge_can_vanish_in_seconds :
  - 2 ^ 47 <= 68719476736001 < 2 ^ 47
  ∧ num_lt (Date_now 68719476736001) (num_add (Date_now 68719476736001) lit_0_01) = true
  ∧ epochSeconds (num_add (Date_now 68719476736001) lit_0_01)
    = epochSeconds (Date_now 68719476736001).
Proof. split; [split; [discriminate|reflexivity]|]. split; by vm_compute. Qed.

Lemma request_span_semantic_calls_witness :
  Flagged.URL_new (url Flagged.request) = Some Flagged.parsed
  ∧ ∃ sp σ', Stateful.getSpan Flagged.URL_new Flagged.sdk_x_g
               (Some (OfRequest Flagged.request)) 5 ∅ = (Normal sp, σ')
             ∧ span_name sp = "fetch GET /s"
             ∧ attributes sp !! HTTP_HOST = Some (AttrString "svc.example").
Proof.
  split; [reflexivity|].
  destruct (request_span_semantic_calls Flagged.URL_new Flagged.sdk_x_g Flagged.request 5
              Flagged.parsed ∅ eq_refl)
    as (sp & σ' & target & added & Hsp & Hname & _ & _ & _ & _ & Hhost & _).
  exists sp, σ'. split; [exact Hsp|]. split; [exact Hname|exact Hhost].
Defined.

Lemma request_header_calls_witness :
  Forall Stateful.flagless_entry (Stateful.allowedHeaders Flagged.sdk_dot)
  ∧ Flagged.URL_new (url Flagged.request) = Some Flagged.parsed
  ∧ ∃ sp σ', Stateful.getSpan Flagged.URL_new Flagged.sdk_dot
               (Some (OfRequest Flagged.request)) 5 ∅ = (Normal sp, σ')
             ∧ SetAttribute "http.request.header.b" (AttrArray [Some "2"]) ∈ span_calls sp
             ∧ ∀ v, SetAttribute "http.request.header.d" v ∉ span_calls sp.
Proof.
  assert (Forall Stateful.flagless_entry (Stateful.allowedHeaders Flagged.sdk_dot)) as Hflagless.
  { constructor; [split; reflexivity|constructor]. }
  split; [exact Hflagless|]. split; [reflexivity|].
  destruct (request_header_calls Flagged.URL_new Flagged.sdk_dot Flagged.request 5
              Flagged.parsed ∅ Hflagless eq_refl) as (sp & σ' & Hsp & Hcalls).
  exists sp, σ'. split; [exact Hsp|]. split.
  - apply (proj2 (Hcalls "b" (AttrArray [Some "2"]))).
    split; [|split; [discriminate|split; reflexivity]].
    right; left.
  - intros v Hin. apply (proj1 (Hcalls "d" v)) in Hin as [Hin _].
    simpl in Hin. not_in_literal_list Hin.
Defined.


Lemma sendResponse_calls_witness :
  ∃ added e,
    span_calls (Stateful.span (Stateful.sendResponse unit Flagged.instance Flagged.response 9 ∅).1.1.2)
    = span_calls (Stateful.span Flagged.instance)
      ++ SetAttribute HTTP_STATUS_CODE (AttrNumber 200) :: added ++ [End e]
    ∧ Forall (fun c => ∃ k v, c = SetAttribute ("http.response.header." +:+ k) v) added.
Proof.
  destruct (sendResponse_calls unit Flagged.instance Flagged.response 9 ∅)
    as (added & e & Hcalls & Hadded & _).
  exists added, e. split; [exact Hcalls|exact Hadded].
Defined.

